(** * termiloult: the AudioSink mixer of [tools/audiosink.py]

    A shallow embedding of the [AudioSink] class: the owner-keyed queue of
    pending sounds (a [defaultdict(list)]), the volume property, [add],
    [remove] and the PortAudio callback [_worker].

    Python objects are modelled as follows.
    - The queue is an insertion-ordered association list, which is what
      [dict.items()] iterates over.
    - A numpy array of samples is an [ndarray]: either an int16 array (what
      [wavfile.read] gives for 16-bit wav data) or a float64 array (what
      [resample] gives).
    - The volume is a binary64 float, with IEEE-754 arithmetic taken from
      the Standard Library's [SpecFloat].
    - A method is a function from the object's state to an [outcome]
      (returned value or raised exception) and the new state.
    - [wavfile.read], [resample] and numpy's float floor division are
      external; they are section variables.

    Module [Chat] embeds the pure part of [termiloult.py]: the commands
    that [WebsocketClient.send_messages] turns into requests and the colour
    pairs of [Interface._init_color_pairs].  A Python [str] is a [string];
    this covers the characters below U+0100. *)

From Stdlib Require Import ZArith List Bool Lia Arith.
From Stdlib Require Import Floats.SpecFloat.
From Stdlib Require Import Strings.Byte.
From Stdlib Require Strings.Ascii Strings.String.
Import ListNotations.

Set Implicit Arguments.

(** ** Exceptions and outcomes *)

Inductive exn : Type :=
| KeyError
| IndexError
| ValueError
| AssertionError
| OSError.

Definition exn_eqb (a b : exn) : bool :=
  match a, b with
  | KeyError, KeyError | IndexError, IndexError | ValueError, ValueError
  | AssertionError, AssertionError | OSError, OSError => true
  | _, _ => false
  end.

Inductive outcome (A : Type) : Type :=
| Returned (a : A)
| Raised (e : exn).

Arguments Returned {A} a.
Arguments Raised {A} e.

(** [try: body except handled: pass], for a body that returns nothing. *)
Definition try_except_pass (handled : exn) (body : outcome unit) : outcome unit :=
  match body with
  | Returned u => Returned u
  | Raised e => if exn_eqb e handled then Returned tt else Raised e
  end.

(** ** Binary64 floats *)

Module F64.

Definition prec : Z := 53.
Definition emax : Z := 1024.

Definition float : Type := spec_float.

(** The float nearest to an integer ([float(z)] in Python). *)
Definition of_Z (z : Z) : float := binary_normalize prec emax z 0 false.

Definition mul : float -> float -> float := SFmul prec emax.
Definition div : float -> float -> float := SFdiv prec emax.
Definition eqb : float -> float -> bool := SFeqb.

(** Rounding toward zero to an integer, as a C cast does.  Infinities and
    NaN have no integer value; the x86 conversion gives a pattern whose low
    16 bits are zero. *)
Definition trunc (x : float) : Z :=
  match x with
  | S754_finite s m e =>
      let a := match e with
               | Z0 => Zpos m
               | Zpos p => Z.shiftl (Zpos m) (Zpos p)
               | Zneg p => Z.shiftr (Zpos m) (Zpos p)
               end in
      if s then (- a)%Z else a
  | _ => 0%Z
  end.

End F64.

(** ** Samples and arrays *)

Module Int16.

Definition min_signed : Z := (-32768)%Z.
Definition max_signed : Z := 32767%Z.

Definition in_range (z : Z) : Prop := (min_signed <= z <= max_signed)%Z.

(** Two's-complement wrap-around into the signed 16-bit range. *)
Definition wrap (z : Z) : Z := ((z + 32768) mod 65536 - 32768)%Z.

(** int16 addition, as numpy's [hh->h] add loop computes it. *)
Definition add (a b : Z) : Z := wrap (a + b).

(** The cast float64 -> int16 that a reduction with [dtype=np.int16]
    applies to each element.  C leaves the cast of a value outside the
    int16 range undefined; this is the x86 result, the low 16 bits of the
    truncated value. *)
Definition of_float (x : F64.float) : Z := wrap (F64.trunc x).

End Int16.

Inductive ndarray : Type :=
| Int16Array (a : list Z)
| Float64Array (a : list F64.float).

Definition len (s : ndarray) : nat :=
  match s with
  | Int16Array a => length a
  | Float64Array a => length a
  end.

(** [np.pad(sound, (0, diff), 'constant')] *)
Definition np_pad (s : ndarray) (diff : nat) : ndarray :=
  match s with
  | Int16Array a => Int16Array (a ++ repeat 0%Z diff)
  | Float64Array a => Float64Array (a ++ repeat (S754_zero false) diff)
  end.

(** [sound[k:]] *)
Definition slice_from (s : ndarray) (k : nat) : ndarray :=
  match s with
  | Int16Array a => Int16Array (skipn k a)
  | Float64Array a => Float64Array (skipn k a)
  end.

(** [sound[:k]] *)
Definition slice_to (s : ndarray) (k : nat) : ndarray :=
  match s with
  | Int16Array a => Int16Array (firstn k a)
  | Float64Array a => Float64Array (firstn k a)
  end.

Definition is_int16 (s : ndarray) : bool :=
  match s with Int16Array _ => true | Float64Array _ => false end.

(** [data.astype(np.float)] *)
Definition astype_float (s : ndarray) : list F64.float :=
  match s with
  | Int16Array a => map F64.of_Z a
  | Float64Array a => a
  end.

Definition int16_data (s : ndarray) : list Z :=
  match s with
  | Int16Array a => a
  | Float64Array _ => []
  end.

(** ** Owners and the queue *)

(** The key of a queue entry: Python's [None] or an identifier. *)
Inductive owner : Type :=
| PyNone
| OwnerId (id : Z).

Definition owner_eqb (a b : owner) : bool :=
  match a, b with
  | PyNone, PyNone => true
  | OwnerId x, OwnerId y => Z.eqb x y
  | _, _ => false
  end.

(** A [defaultdict(list)]: entries in insertion order, keys distinct. *)
Definition queue : Type := list (owner * list ndarray).

Module DefaultDict.

Definition keys (q : queue) : list owner := map fst q.

Fixpoint lookup (q : queue) (k : owner) : option (list ndarray) :=
  match q with
  | [] => None
  | (k', v) :: q' => if owner_eqb k' k then Some v else lookup q' k
  end.

Definition mem (q : queue) (k : owner) : bool :=
  existsb (owner_eqb k) (keys q).

(** [q[k].append(x)]: a missing key is first bound to a fresh list, at
    the end of the dictionary. *)
Fixpoint append (q : queue) (k : owner) (x : ndarray) : queue :=
  match q with
  | [] => [(k, [x])]
  | (k', v) :: q' =>
      if owner_eqb k' k then (k', v ++ [x]) :: q'
      else (k', v) :: append q' k x
  end.

(** [del q[k]]: [__missing__] is not consulted, a missing key raises
    [KeyError]. *)
Definition del (q : queue) (k : owner) : outcome queue :=
  if mem q k
  then Returned (filter (fun kv => negb (owner_eqb (fst kv) k)) q)
  else Raised KeyError.

(** Truth value of the dictionary: [not q] holds when it has no key. *)
Definition is_empty (q : queue) : bool :=
  match q with [] => true | _ => false end.

End DefaultDict.

(** ** The player and the object state *)

Inductive pa_flag : Type :=
| paContinue
| paComplete.

(** The handle that [PyAudio.open] returns; PortAudio clears [is_active]
    once a callback has answered [paComplete]. *)
Record Stream : Type := { is_active : bool }.

(** Calls made to the PortAudio binding, oldest first. *)
Inductive player_call : Type :=
| PlayerOpen
| StreamClose.

Record AudioSink : Type := {
  _queue : queue;
  _volume : F64.float;
  _stream : option Stream;
  player : list player_call
}.

Definition set_queue (q : queue) (self : AudioSink) : AudioSink :=
  {| _queue := q; _volume := _volume self;
     _stream := _stream self; player := player self |}.

Definition set_volume (v : F64.float) (self : AudioSink) : AudioSink :=
  {| _queue := _queue self; _volume := v;
     _stream := _stream self; player := player self |}.

Definition set_stream (s : option Stream) (calls : list player_call)
    (self : AudioSink) : AudioSink :=
  {| _queue := _queue self; _volume := _volume self;
     _stream := s; player := player self ++ calls |}.

Definition DEFAULT_SAMPLE_RATE : Z := 16000.

(** ** Mixing arithmetic *)

Fixpoint zip_with {A B C : Type} (f : A -> B -> C) (l : list A) (m : list B)
    : list C :=
  match l, m with
  | a :: l', b :: m' => f a b :: zip_with f l' m'
  | _, _ => []
  end.

(** A two-dimensional array, one row per chunk. *)
Inductive matrix : Type :=
| Int16Matrix (rows : list (list Z))
| Float64Matrix (rows : list (list F64.float)).

(** [np.stack(chunks, axis=0)]: the list must not be empty and all arrays
    must have one shape; int16 arrays are promoted to float64 as soon as one
    float64 array is present. *)
Definition np_stack (chunks : list ndarray) : outcome matrix :=
  match chunks with
  | [] => Raised ValueError
  | c :: cs =>
      if forallb (fun d => Nat.eqb (len d) (len c)) cs then
        Returned (if forallb is_int16 chunks
                  then Int16Matrix (map int16_data chunks)
                  else Float64Matrix (map astype_float chunks))
      else Raised ValueError
  end.

(** [np.sum(stack, axis=0, dtype=np.int16)]: every element is cast to
    int16, the first row starts the accumulator and the other rows are added
    to it with int16 addition. *)
Definition np_sum_axis0_int16 (stack : list (list F64.float)) : list Z :=
  match stack with
  | [] => []
  | r :: rs =>
      fold_left (fun acc row => zip_with Int16.add acc (map Int16.of_float row))
                rs (map Int16.of_float r)
  end.

Definition byte_of_Z (z : Z) : byte :=
  match Byte.of_N (Z.to_N (z mod 256)) with
  | Some b => b
  | None => x00
  end.

(** One int16 sample as two bytes, least significant first. *)
Definition int16_tobytes (x : Z) : list byte :=
  let u := (x mod 65536)%Z in [byte_of_Z u; byte_of_Z (u / 256)].

(** [data.tobytes()] *)
Definition tobytes (data : list Z) : list byte := flat_map int16_tobytes data.

(** Reading the bytes back as int16 samples ([np.frombuffer]). *)
Fixpoint frombuffer (b : list byte) : list Z :=
  match b with
  | lo :: hi :: b' =>
      Int16.wrap (Z.of_N (Byte.to_N lo) + 256 * Z.of_N (Byte.to_N hi))
        :: frombuffer b'
  | _ => []
  end.

(** ** The methods *)

Section Methods.

(** [scipy.io.wavfile.read]: the rate and the samples of a wav file. *)
Variable wavfile_read : list byte -> outcome (Z * ndarray).

(** [resampy.resample data rate_in rate_out] *)
Variable resample : list F64.float -> Z -> Z -> outcome (list F64.float).

(** numpy's floor division of a float64 by an integer. *)
Variable floor_divide_f64 : F64.float -> Z -> F64.float.

(** [stack // n] *)
Definition floor_divide (m : matrix) (n : Z) : matrix :=
  match m with
  | Int16Matrix rows => Int16Matrix (map (map (fun x => (x / n)%Z)) rows)
  | Float64Matrix rows =>
      Float64Matrix (map (map (fun x => floor_divide_f64 x n)) rows)
  end.

(** [m * volume], a float64 array whatever the type of [m]. *)
Definition times_volume (m : matrix) (volume : F64.float)
    : list (list F64.float) :=
  match m with
  | Int16Matrix rows => map (map (fun x => F64.mul (F64.of_Z x) volume)) rows
  | Float64Matrix rows => map (map (fun x => F64.mul x volume)) rows
  end.

(** The volume property: getter. *)
Definition volume (self : AudioSink) : F64.float :=
  F64.mul (F64.of_Z 100) (_volume self).

(** The volume property: setter. *)
Definition volume_setter (value : Z) (self : AudioSink)
    : outcome unit * AudioSink :=
  if ((0 <=? value) && (value <=? 100))%Z
  then (Returned tt, set_volume (F64.div (F64.of_Z value) (F64.of_Z 100)) self)
  else (Raised AssertionError, self).

(** [__init__], after the player has been created. *)
Definition init (volume : Z) : outcome unit * AudioSink :=
  volume_setter volume
    {| _queue := []; _volume := F64.of_Z 1; _stream := None; player := [] |}.

(** The end of [add]: drop a stream that stopped, open one if none.
    The three calls into PortAudio, [is_active()], [close()] and
    [player.open(...)], are followed on the path where they return; each
    of them can raise [OSError] instead, and [add] then raises with the
    clip already appended to the queue.  That path is outside this
    function, so nothing below is stated about an [add] that raises after
    the append. *)
Definition ensure_stream (self : AudioSink) : AudioSink :=
  let self1 :=
    match _stream self with
    | Some s => if negb (is_active s)
                then set_stream None [StreamClose] self
                else self
    | None => self
    end in
  match _stream self1 with
  | None => set_stream (Some {| is_active := true |}) [PlayerOpen] self1
  | Some _ => self1
  end.

(** [add(sound, owner=None)]; an omitted owner is [None] here too. *)
Definition add (sound : list byte) (owner_arg : option owner)
    (self : AudioSink) : outcome unit * AudioSink :=
  let owner := match owner_arg with Some o => o | None => PyNone end in
  match wavfile_read sound with
  | Raised e => (Raised e, self)
  | Returned (rate, data) =>
      let resampled :=
        if negb (rate =? DEFAULT_SAMPLE_RATE)%Z
        then match resample (astype_float data) rate DEFAULT_SAMPLE_RATE with
             | Returned d => Returned (Float64Array d)
             | Raised e => Raised e
             end
        else Returned data in
      match resampled with
      | Raised ValueError => (Returned tt, self)
      | Raised e => (Raised e, self)
      | Returned data' =>
          let self1 :=
            set_queue (DefaultDict.append (_queue self) owner data') self in
          (Returned tt, ensure_stream self1)
      end
  end.

(** [remove(owner)] *)
Definition remove (owner : owner) (self : AudioSink)
    : outcome unit * AudioSink :=
  let '(r, self') :=
    match DefaultDict.del (_queue self) owner with
    | Returned q => (Returned tt, set_queue q self)
    | Raised e => (Raised e, self)
    end in
  (try_except_pass IndexError r, self').

(** The body of the inner loop of [_worker], for one sound. *)
Definition worker_step (frame_count : nat) (owner : owner)
    (acc : list ndarray * queue) (sound : ndarray) : list ndarray * queue :=
  let '(chunks, new_queue) := acc in
  let length := len sound in
  if (length <=? frame_count)%nat then
    let diff := (frame_count - length)%nat in
    let sound := np_pad sound diff in
    (chunks ++ [slice_to sound frame_count], new_queue)
  else
    let new_queue :=
      DefaultDict.append new_queue owner (slice_from sound frame_count) in
    (chunks ++ [slice_to sound frame_count], new_queue).

(** Both loops of [_worker]: every sound of every owner. *)
Definition worker_loop (frame_count : nat) (q : queue)
    : list ndarray * queue :=
  fold_left
    (fun acc item =>
       fold_left (worker_step frame_count (fst item)) (snd item) acc)
    q ([], []).

(** [_worker(in_data, frame_count, time_info, status)]; the three other
    arguments are not used. *)
Definition _worker (frame_count : nat) (self : AudioSink)
    : outcome (list byte * pa_flag) * AudioSink :=
  if DefaultDict.is_empty (_queue self) then
    (Returned ([], paComplete), self)
  else
    let '(chunks, new_queue) := worker_loop frame_count (_queue self) in
    let self' := set_queue new_queue self in
    match np_stack chunks with
    | Raised e => (Raised e, self')
    | Returned m =>
        let stack :=
          times_volume (floor_divide m (Z.of_nat (length chunks)))
                       (_volume self') in
        let data := np_sum_axis0_int16 stack in
        (Returned (tobytes data, paContinue), self')
    end.

(** PortAudio asking for [frame_count] frames on the open stream: it
    runs the callback and stops the stream unless told to continue. *)
Definition pull (frame_count : nat) (self : AudioSink)
    : outcome (list byte * pa_flag) * AudioSink :=
  let '(r, self') := _worker frame_count self in
  match r with
  | Returned (_, paContinue) => (r, self')
  | _ => (r, set_stream (Some {| is_active := false |}) [] self')
  end.

End Methods.

(** ** Derived notions used by the statements *)

(** Every key of the queue is bound to at least one sound. *)
Definition nonempty_lists (q : queue) : Prop :=
  Forall (fun kv => snd kv <> []) q.

(** The chunk [_worker] captures from one sound. *)
Definition chunk_of (frame_count : nat) (sound : ndarray) : ndarray :=
  slice_to (if (len sound <=? frame_count)%nat
            then np_pad sound (frame_count - len sound)
            else sound) frame_count.

(** What [_worker] keeps of an owner's sounds for the next call. *)
Definition remainders (frame_count : nat) (sounds : list ndarray)
    : list ndarray :=
  map (fun s => slice_from s frame_count)
      (filter (fun s => negb (len s <=? frame_count)%nat) sounds).

Definition has_sounds (kv : owner * list ndarray) : bool :=
  match snd kv with [] => false | _ => true end.

(** The queue after one call, in closed form. *)
Definition carried_over (frame_count : nat) (q : queue) : queue :=
  filter has_sounds
         (map (fun kv => (fst kv, remainders frame_count (snd kv))) q).

(** The chunks of one call, in closed form: one per sound of every owner. *)
Definition all_chunks (frame_count : nat) (q : queue) : list ndarray :=
  flat_map (fun kv => map (chunk_of frame_count) (snd kv)) q.

(** Sample [j] of an int16 chunk. *)
Definition sample_at (j : nat) (c : ndarray) : Z := nth j (int16_data c) 0%Z.

Definition Zsum (l : list Z) : Z := fold_right Z.add 0%Z l.

(** The entry that the inner loop of [_worker] has built so far for the
    owner it is working on: nothing until a first remainder is appended. *)
Definition entry (nq : queue) (o : owner) (rs : list ndarray) : queue :=
  match rs with
  | [] => nq
  | _ :: _ => nq ++ [(o, rs)]
  end.

(** The value [_worker] computes for sample [j] before the int16
    accumulator can overflow: every chunk is floor-divided by the number of
    chunks, multiplied by the volume and cast to int16, and the casts are
    added up. *)
Definition mixed_sample (chunks : list ndarray) (volume : F64.float) (j : nat)
    : Z :=
  Zsum (map (fun c =>
               Int16.of_float
                 (F64.mul (F64.of_Z (sample_at j c / Z.of_nat (length chunks)))
                          volume))
            chunks).

(** Saturation into the signed 16-bit range. *)
Definition clamp (z : Z) : Z :=
  Z.max Int16.min_signed (Z.min Int16.max_signed z).

(** The mix in the words of the specification: the chunks are summed, the
    sum is divided by their number, multiplied by the gain and clamped. *)
Definition specified_sample (chunks : list ndarray) (volume : F64.float)
    (j : nat) : Z :=
  clamp (F64.trunc
           (F64.mul
              (F64.of_Z (Zsum (map (sample_at j) chunks)
                         / Z.of_nat (length chunks)))
              volume)).

(** The samples of a frame returned with [paContinue]. *)
Definition frame_of (r : outcome (list byte * pa_flag)) : option (list Z) :=
  match r with
  | Returned (b, paContinue) => Some (frombuffer b)
  | _ => None
  end.

(** ** Concrete clips

    A minimal container that stands for a wav file when the methods are run
    on concrete inputs: two bytes of sample rate, then the int16 samples,
    all little-endian. *)

Definition clip (rate : Z) (samples : list Z) : list byte :=
  [byte_of_Z rate; byte_of_Z (rate / 256)] ++ tobytes samples.

Definition clip_read (b : list byte) : outcome (Z * ndarray) :=
  match b with
  | lo :: hi :: data =>
      Returned ((Z.of_N (Byte.to_N lo) + 256 * Z.of_N (Byte.to_N hi))%Z,
                Int16Array (frombuffer data))
  | _ => Raised ValueError
  end.

(** A resampler that refuses inputs shorter than two samples, as resampy
    does, and otherwise keeps one sample out of two. *)
Fixpoint halve (d : list F64.float) : list F64.float :=
  match d with
  | x :: _ :: d' => x :: halve d'
  | _ => d
  end.

Definition clip_resample (d : list F64.float) (rate_in rate_out : Z)
    : outcome (list F64.float) :=
  match d with
  | [] | [_] => Raised ValueError
  | _ => Returned (halve d)
  end.

(** Float floor division by an integer, exact on the integer-valued floats
    that the concrete clips produce. *)
Definition clip_floor_divide (x : F64.float) (n : Z) : F64.float :=
  F64.of_Z (F64.trunc x / n).

(** A fresh object at full volume. *)
Definition fresh : AudioSink := snd (init 100).

(** [add] on the concrete clips. *)
Definition submit (o : owner) (rate : Z) (samples : list Z)
    (self : AudioSink) : AudioSink :=
  snd (add clip_read clip_resample (clip rate samples) (Some o) self).


(** The frame that [_worker] returns is the mix as the specification
    words it. *)
Definition mixes_as_specified (frame_count : nat) (self : AudioSink) : Prop :=
  frame_of (fst (_worker clip_floor_divide frame_count self)) =
  Some (map (specified_sample (all_chunks frame_count (_queue self))
                              (_volume self))
            (seq 0 frame_count)).

(** Two owners, each with a one-sample clip of value 1. *)
Definition two_quiet : AudioSink :=
  submit (OwnerId 2) 16000 [1%Z] (submit (OwnerId 1) 16000 [1%Z] fresh).

(** Three owners, each with a one-sample clip of the lowest value. *)
Definition three_low : AudioSink :=
  submit (OwnerId 3) 16000 [(-32768)%Z]
    (submit (OwnerId 2) 16000 [(-32768)%Z]
       (submit (OwnerId 1) 16000 [(-32768)%Z] fresh)).

(** Every pending sound is an int16 array. *)
Definition int16_queue (q : queue) : Prop :=
  forall kv s, In kv q -> In s (snd kv) -> is_int16 s = true.

(** The state reached from a fresh object by method calls and callbacks. *)
Section Runs.

Variable wavfile_read : list byte -> outcome (Z * ndarray).
Variable resample : list F64.float -> Z -> Z -> outcome (list F64.float).
Variable floor_divide_f64 : F64.float -> Z -> F64.float.

Inductive reachable : AudioSink -> Prop :=
| reach_init (v : Z) (self : AudioSink) :
    init v = (Returned tt, self) -> reachable self
| reach_add (sound : list byte) (o : option owner) (self : AudioSink) :
    reachable self ->
    reachable (snd (add wavfile_read resample sound o self))
| reach_remove (o : owner) (self : AudioSink) :
    reachable self -> reachable (snd (remove o self))
| reach_volume (v : Z) (self : AudioSink) :
    reachable self -> reachable (snd (volume_setter v self))
| reach_pull (frame_count : nat) (self : AudioSink) :
    reachable self ->
    reachable (snd (pull floor_divide_f64 frame_count self)).

(** The array that [add] appends for [sound]: the decoded samples, or
    their resampling when the rate is not the default one. *)
Definition decodes_to (sound : list byte) (data : ndarray) : Prop :=
  exists rate raw,
    wavfile_read sound = Returned (rate, raw) /\
    ((rate = DEFAULT_SAMPLE_RATE /\ data = raw) \/
     (rate <> DEFAULT_SAMPLE_RATE /\
      exists d, resample (astype_float raw) rate DEFAULT_SAMPLE_RATE
                = Returned d /\ data = Float64Array d)).


End Runs.

(** ** Runs of the callback, the player's log, and volumes *)

(** The object after [n] successive calls of [_worker]. *)
Fixpoint pulls (floor_divide_f64 : F64.float -> Z -> F64.float)
    (frame_count n : nat) (self : AudioSink) : AudioSink :=
  match n with
  | O => self
  | S n' =>
      pulls floor_divide_f64 frame_count n'
            (snd (_worker floor_divide_f64 frame_count self))
  end.

(** The frames that at most [n] successive calls of [_worker] hand to
    PortAudio: the stream ends at the first call that does not answer
    [paContinue]. *)
Fixpoint frames (floor_divide_f64 : F64.float -> Z -> F64.float)
    (frame_count n : nat) (self : AudioSink) : list (list Z) :=
  match n with
  | O => []
  | S n' =>
      let '(r, self') := _worker floor_divide_f64 frame_count self in
      match frame_of r with
      | Some f => f :: frames floor_divide_f64 frame_count n' self'
      | None => []
      end
  end.


(** The fraction the setter stores for a volume of [p] percent. *)
Definition gain_of (p : Z) : F64.float := F64.div (F64.of_Z p) (F64.of_Z 100).

Definition f64_leb : F64.float -> F64.float -> bool := SFleb.

(** A test on [lo], [lo + 1], ..., [lo + n - 1]. *)
Fixpoint all_from (P : Z -> bool) (lo : Z) (n : positive) : bool :=
  match n with
  | xH => P lo
  | xO n' => all_from P lo n' && all_from P (lo + Zpos n') n'
  | xI n' =>
      P lo && all_from P (lo + 1) n' && all_from P (lo + 1 + Zpos n') n'
  end.

(** Every sample of every pending int16 sound is a 16-bit value. *)
Definition int16_samples (q : queue) : Prop :=
  forall kv s x, In kv q -> In s (snd kv) -> In x (int16_data s) ->
                 Int16.in_range x.

(** The states of an object in use: the methods are called in any order,
    PortAudio runs the callback when it wants to, and it may stop the stream
    it was given at any time. *)
Section Sessions.

Variable wavfile_read : list byte -> outcome (Z * ndarray).
Variable resample : list F64.float -> Z -> Z -> outcome (list F64.float).
Variable floor_divide_f64 : F64.float -> Z -> F64.float.

Inductive in_use : AudioSink -> Prop :=
| use_init (v : Z) (self : AudioSink) :
    init v = (Returned tt, self) -> in_use self
| use_add (sound : list byte) (o : option owner) (self : AudioSink) :
    in_use self -> in_use (snd (add wavfile_read resample sound o self))
| use_remove (o : owner) (self : AudioSink) :
    in_use self -> in_use (snd (remove o self))
| use_volume (v : Z) (self : AudioSink) :
    in_use self -> in_use (snd (volume_setter v self))
| use_worker (frame_count : nat) (self : AudioSink) :
    in_use self -> in_use (snd (_worker floor_divide_f64 frame_count self))
| use_stopped (s : Stream) (self : AudioSink) :
    in_use self -> _stream self = Some s ->
    in_use (set_stream (Some {| is_active := false |}) [] self).

End Sessions.

(** * termiloult.py *)

Module Chat.
Import Ascii String.
Local Open Scope string_scope.

(** [str.isspace] on one character: the separators of [str.split()]. *)
Definition is_space (c : ascii) : bool :=
  let n := nat_of_ascii c in
  ((9 <=? n) && (n <=? 13) || (28 <=? n) && (n <=? 32)
   || (n =? 133) || (n =? 160))%nat.

(** The loop of [str.split()]: [word] is the word being read, if any. *)
Fixpoint split_from (s : string) (word : option string) : list string :=
  match s with
  | EmptyString =>
      match word with Some w => [w] | None => [] end
  | String c s' =>
      if is_space c then
        match word with
        | Some w => w :: split_from s' None
        | None => split_from s' None
        end
      else
        split_from s' (Some (match word with
                             | Some w => w ++ String c ""
                             | None => String c ""
                             end))
  end.

(** [msg.split()] *)
Definition split (msg : string) : list string := split_from msg None.

Fixpoint lstrip (c : ascii) (s : string) : string :=
  match s with
  | String a s' => if Ascii.eqb a c then lstrip c s' else s
  | EmptyString => s
  end.

Fixpoint rstrip (c : ascii) (s : string) : string :=
  match s with
  | EmptyString => EmptyString
  | String a s' =>
      match rstrip c s' with
      | EmptyString => if Ascii.eqb a c then EmptyString else String a EmptyString
      | r => String a r
      end
  end.

(** [s.strip(c)] for a single character [c]. *)
Definition strip (c : ascii) (s : string) : string := rstrip c (lstrip c s).

(** A character that [\d] matches. *)
Definition is_digit (c : ascii) : bool :=
  let n := nat_of_ascii c in ((48 <=? n) && (n <=? 57))%nat.

Fixpoint skip_digits (s : string) : string :=
  match s with
  | String c s' => if is_digit c then skip_digits s' else s
  | EmptyString => s
  end.

(** [(\d+u)?] at the head of [s]: what follows the group when it is
    there, [s] itself when it is not.  Taking the group whenever it is
    there loses no match, as nothing else in the pattern can start with
    digits followed by [u]. *)
Definition optional_group (u : ascii) (s : string) : string :=
  match s with
  | String c _ =>
      if is_digit c then
        match skip_digits s with
        | String c' rest => if Ascii.eqb c' u then rest else s
        | EmptyString => s
        end
      else s
  | EmptyString => s
  end.

(** [search('^(\d+d)?(\d+h)?(\d+m)?(\d+s)?$', word)] finds a match;
    [$] also matches before a newline that ends the word. *)
Definition is_timeout (word : string) : bool :=
  match optional_group "s"
          (optional_group "m" (optional_group "h" (optional_group "d" word)))
  with
  | EmptyString => true
  | String c EmptyString => Ascii.eqb c "010"
  | _ => false
  end.

Section SendMessages.

(** What [UserList.get_userid_from_name] returns. *)
Variable userid : Type.

(** [self.user_list.get_userid_from_name(name, index)] *)
Variable get_userid_from_name : string -> Z -> outcome userid.

(** The builtin [int] on a [str]. *)
Variable int : string -> outcome Z.

(** The values of the dictionaries handed to [json.dumps]. *)
Inductive value : Type :=
| PyNoneValue
| Str (s : string)
| UserId (u : userid).

(** A dictionary literal, keys in the order they are written. *)
Definition dict : Type := list (string * value).

(** The local variable [order]: the integer 1 or a word of the message. *)
Inductive order_value : Type :=
| OrderInt (n : Z)
| OrderWord (w : string).

(** [int(order)] *)
Definition int_of_order (order : order_value) : outcome Z :=
  match order with
  | OrderInt n => Returned n
  | OrderWord w => int w
  end.

(** [msg_split[i]] *)
Definition item (msg_split : list string) (i : nat) : outcome string :=
  match nth_error msg_split i with
  | Some w => Returned w
  | None => Raised IndexError
  end.

(** The branch of [send_messages] for [/ban] and [/slowban]. *)
Definition ban_data (msg : string) : outcome dict :=
  let msg_split := split msg in
  let choice :=
    if (4 <=? List.length msg_split)%nat
       && is_timeout (List.last msg_split EmptyString)
    then
      let timeout := List.last msg_split EmptyString in
      if (List.length msg_split =? 4)%nat
      then Returned (timeout, OrderInt 1)
      else match item msg_split 3 with
           | Returned w => Returned (timeout, OrderWord w)
           | Raised e => Raised e
           end
    else
      match item msg_split 3 with
      | Returned w => Returned ("0s", OrderWord w)
      | Raised e => Raised e
      end in
  match choice with
  | Raised e => Raised e
  | Returned (timeout, order) =>
      match item msg_split 0 with
      | Raised e => Raised e
      | Returned command =>
          match item msg_split 1 with
          | Raised e => Raised e
          | Returned state =>
              match item msg_split 2 with
              | Raised e => Raised e
              | Returned name =>
                  match int_of_order order with
                  | Raised e => Raised e
                  | Returned n =>
                      match get_userid_from_name name (n - 1) with
                      | Raised e => Raised e
                      | Returned u =>
                          Returned [("type", Str (strip "/" command));
                                    ("state", Str state);
                                    ("userid", UserId u);
                                    ("timeout", Str timeout)]
                      end
                  end
              end
          end
      end
  end.

(** The dictionary that one turn of the loop of [send_messages] builds
    for [msg]. *)
Definition request (msg : string) : outcome dict :=
  if prefix "/attack" msg then
    let msg_split := split msg in
    match get 1 msg with
    | None => Raised IndexError
    | Some c =>
        Returned [("type", Str "attack");
                  ("target", Str (String c ""));
                  ("order", if (3 <=? List.length msg_split)%nat
                            then match nth_error msg_split 2 with
                                 | Some w => Str w
                                 | None => PyNoneValue
                                 end
                            else PyNoneValue)]
    end
  else if prefix "/ban" msg || prefix "/slowban" msg then
    ban_data msg
  else
    Returned [("lang", Str "fr"); ("msg", Str msg); ("type", Str "msg")].

(** How a run of [send_messages] stands: waiting for the next input,
    returned after a [None], or ended by an exception. *)
Inductive status : Type :=
| Waiting
| Finished
| Failed (e : exn).

(** [send_messages] on the items that the input queue delivers: the
    dictionaries sent to the server, in order, and how the coroutine
    stands.  Serialising and sending are taken to succeed. *)
Fixpoint send_messages (inputs : list (option string)) : list dict * status :=
  match inputs with
  | [] => ([], Waiting)
  | None :: _ => ([], Finished)
  | Some msg :: inputs' =>
      match request msg with
      | Raised e => ([], Failed e)
      | Returned data =>
          let '(sent, st) := send_messages inputs' in (data :: sent, st)
      end
  end.

End SendMessages.

(** The dictionary sent for a message that is no command. *)
Definition plain {userid : Type} (msg : string) : dict userid :=
  [("lang", Str userid "fr"); ("msg", Str userid msg);
   ("type", Str userid "msg")].

(** A part of a timeout: a number and its unit, or nothing. *)
Definition part (number : option string) (unit : ascii) : string :=
  match number with
  | Some n => n ++ String unit ""
  | None => ""
  end.

(** A number as the pattern wants it: one digit at least, digits only. *)
Fixpoint all_digits (s : string) : bool :=
  match s with
  | EmptyString => true
  | String c s' => is_digit c && all_digits s'
  end.

Definition is_number (number : option string) : Prop :=
  match number with
  | Some n => n <> "" /\ all_digits n = true
  | None => True
  end.

(** The last character of a word. *)
Fixpoint last_char (s : string) : option ascii :=
  match s with
  | EmptyString => None
  | String c EmptyString => Some c
  | String _ s' => last_char s'
  end.

(** No character of the word separates words. *)
Fixpoint no_space (s : string) : bool :=
  match s with
  | EmptyString => true
  | String c s' => negb (is_space c) && no_space s'
  end.

(** A word is empty or ends with one of the given characters. *)
Definition ends_well (units : list ascii) (s : string) : Prop :=
  s = "" \/ exists c, last_char s = Some c /\ In c units.

Section Configuration.

(** The values of the command line and of the configuration file. *)
Variable value : Type.

(** What [argparser.parse_args()] returns, less the path of the file. *)
Record arguments : Type := {
  channel : value;
  server : value;
  port : value;
  cookie : value
}.

(** A dictionary with string keys. *)
Definition config : Type := list (string * value).

(** [d[key]], when the key is there. *)
Fixpoint config_get (d : config) (key : string) : option value :=
  match d with
  | [] => None
  | (k, v) :: d' => if String.eqb k key then Some v else config_get d' key
  end.

(** [d[key] = v] *)
Fixpoint config_set (d : config) (key : string) (v : value) : config :=
  match d with
  | [] => [(key, v)]
  | (k, v') :: d' =>
      if String.eqb k key then (k, v) :: d' else (k, v') :: config_set d' key v
  end.

(** The loop that copies the values of the file into [config_dict]. *)
Definition load_config (config_dict yaml_config : config) : config :=
  fold_left
    (fun d key =>
       match config_get yaml_config key with
       | Some v => config_set d key v
       | None => d
       end)
    (map fst config_dict) config_dict.

(** The main block: the arguments [WebsocketClient] is created with
    (server, channel, port, cookie), or [None] when no client is created.
    [yaml_config] is the mapping read from the configuration file, when the
    file is there. *)
Definition main (args : arguments) (yaml_config : option config)
    : option (outcome (value * value * value * value)) :=
  let config_dict :=
    [("channel", channel args); ("post", port args); ("cookie", cookie args);
     ("server", server args); ("port", port args)] in
  match yaml_config with
  | None => None
  | Some yaml_config =>
      let config_dict := load_config config_dict yaml_config in
      Some
        match config_get config_dict "server", config_get config_dict "channel",
              config_get config_dict "port", config_get config_dict "cookie"
        with
        | Some s, Some c, Some p, Some k => Returned (s, c, p, k)
        | _, _, _, _ => Raised KeyError
        end
  end.

(** The value of a key: the file's when it has the key, else the given one. *)
Definition setting (yaml_config : config) (key : string) (given : value)
    : value :=
  match config_get yaml_config key with
  | Some v => v
  | None => given
  end.

End Configuration.

(** [Interface._init_color_pairs]: the calls [init_pair(counter, front,
    back)] it makes, in order. *)
Definition _init_color_pairs : list (nat * nat * nat) :=
  snd (fold_left
         (fun (acc : nat * list (nat * nat * nat)) (colors : nat * nat) =>
            let '(counter, calls) := acc in
            let '(color_front, color_back) := colors in
            if negb (color_front =? color_back)%nat
            then ((counter + 1)%nat,
                  (calls ++ [((counter + 1)%nat, color_front, color_back)])%list)
            else (counter, calls))
         (list_prod (seq 0 8) (seq 0 8))
         (O, [])).

End Chat.

(** ** Facts on owners *)

Lemma owner_eqb_spec (a b : owner) : reflect (a = b) (owner_eqb a b).
Proof.
  destruct a as [|x], b as [|y]; simpl; try (constructor; congruence).
  destruct (Z.eqb_spec x y); constructor; congruence.
Qed.

Lemma owner_eqb_refl (a : owner) : owner_eqb a a = true.
Proof. destruct (owner_eqb_spec a a); congruence. Qed.

(** ** Facts on 16-bit arithmetic *)

Lemma wrap_in_range (z : Z) : Int16.in_range (Int16.wrap z).
Proof.
  unfold Int16.in_range, Int16.wrap, Int16.min_signed, Int16.max_signed.
  pose proof (Z.mod_pos_bound (z + 32768) 65536 ltac:(lia)). lia.
Qed.

Lemma wrap_small (z : Z) : Int16.in_range z -> Int16.wrap z = z.
Proof.
  unfold Int16.in_range, Int16.wrap, Int16.min_signed, Int16.max_signed.
  intros H. rewrite Z.mod_small; lia.
Qed.

Lemma wrap_add_l (a b : Z) : Int16.wrap (Int16.wrap a + b) = Int16.wrap (a + b).
Proof.
  unfold Int16.wrap.
  replace ((a + 32768) mod 65536 - 32768 + b + 32768)%Z
    with ((a + 32768) mod 65536 + b)%Z by lia.
  rewrite Zplus_mod_idemp_l.
  replace (a + 32768 + b)%Z with (a + b + 32768)%Z by lia.
  reflexivity.
Qed.

(** ** Facts on the dictionary *)

Module DefaultDictFacts.
Import DefaultDict.

Lemma mem_lookup (q : queue) (k : owner) :
  mem q k = false <-> lookup q k = None.
Proof.
  unfold mem, keys.
  induction q as [|[k' v] q IH]; simpl; [tauto|].
  destruct (owner_eqb_spec k' k) as [->|Hne].
  - rewrite owner_eqb_refl. simpl. split; discriminate.
  - destruct (owner_eqb_spec k k') as [->|_]; [congruence|]. simpl. exact IH.
Qed.

Lemma mem_In (q : queue) (k : owner) : mem q k = true <-> In k (keys q).
Proof.
  unfold mem. rewrite existsb_exists. split.
  - intros [x [Hin Heq]]. destruct (owner_eqb_spec k x); congruence.
  - intros Hin. exists k. split; [assumption|apply owner_eqb_refl].
Qed.

Lemma lookup_append_same (q : queue) (k : owner) (x : ndarray) :
  lookup (append q k x) k =
  Some (match lookup q k with Some v => v ++ [x] | None => [x] end).
Proof.
  induction q as [|[k' v] q IH]; simpl.
  - now rewrite owner_eqb_refl.
  - destruct (owner_eqb k' k) eqn:E; simpl; rewrite E; [reflexivity|exact IH].
Qed.

Lemma lookup_append_other (q : queue) (k k' : owner) (x : ndarray) :
  k <> k' -> lookup (append q k x) k' = lookup q k'.
Proof.
  intros Hne. induction q as [|[k0 v] q IH]; simpl.
  - destruct (owner_eqb_spec k k'); congruence.
  - destruct (owner_eqb_spec k0 k) as [->|Hk]; simpl.
    + destruct (owner_eqb_spec k k'); congruence.
    + now rewrite IH.
Qed.

Lemma keys_append (q : queue) (k : owner) (x : ndarray) :
  keys (append q k x) = if mem q k then keys q else keys q ++ [k].
Proof.
  unfold mem, keys. induction q as [|[k' v] q IH]; simpl; [reflexivity|].
  destruct (owner_eqb_spec k' k) as [->|Hk]; simpl.
  - now rewrite owner_eqb_refl.
  - destruct (owner_eqb_spec k k') as [->|_]; [congruence|]. simpl.
    rewrite IH. now destruct (existsb (owner_eqb k) (map fst q)).
Qed.

Lemma append_nonempty (q : queue) (k : owner) (x : ndarray) :
  nonempty_lists q -> nonempty_lists (append q k x).
Proof.
  unfold nonempty_lists.
  induction q as [|[k' v] q IH]; simpl; intros H.
  - constructor; [simpl; discriminate|constructor].
  - inversion H as [|? ? Hv Hq]; subst.
    destruct (owner_eqb k' k); constructor; simpl; auto.
    destruct v; discriminate.
Qed.

Lemma append_NoDup (q : queue) (k : owner) (x : ndarray) :
  NoDup (keys q) -> NoDup (keys (append q k x)).
Proof.
  intros H. rewrite keys_append. destruct (mem q k) eqn:E; [assumption|].
  apply NoDup_app; [assumption|repeat constructor; simpl; tauto|].
  intros a Ha [<-|[]]. apply mem_In in Ha. congruence.
Qed.

(** Appending under a key that the front part does not hold. *)
Lemma append_app_notin (q t : queue) (k : owner) (x : ndarray) :
  ~ In k (keys q) -> append (q ++ t) k x = q ++ append t k x.
Proof.
  induction q as [|[k' v] q IH]; simpl; intros H; [reflexivity|].
  destruct (owner_eqb_spec k' k) as [->|_]; [tauto|].
  rewrite IH; [reflexivity|tauto].
Qed.

Lemma filter_nonempty (f : owner * list ndarray -> bool) (q : queue) :
  nonempty_lists q -> nonempty_lists (filter f q).
Proof.
  unfold nonempty_lists. rewrite !Forall_forall.
  intros H kv Hin. apply filter_In in Hin. apply H, Hin.
Qed.

Lemma filter_NoDup (f : owner * list ndarray -> bool) (q : queue) :
  NoDup (keys q) -> NoDup (keys (filter f q)).
Proof.
  unfold keys. induction q as [|kv q IH]; simpl; intros H; [constructor|].
  inversion H as [|? ? Hk Hq]; subst.
  destruct (f kv); simpl; [|now apply IH].
  constructor; [|now apply IH].
  intros Hin. apply Hk. apply in_map_iff in Hin.
  destruct Hin as [kv' [Heq Hin]]. apply filter_In in Hin.
  rewrite <- Heq. apply in_map. apply Hin.
Qed.

Lemma lookup_filter_other (q : queue) (k k' : owner) :
  k <> k' ->
  lookup (filter (fun kv => negb (owner_eqb (fst kv) k)) q) k' = lookup q k'.
Proof.
  intros Hne. induction q as [|[k0 v] q IH]; simpl; [reflexivity|].
  destruct (owner_eqb_spec k0 k) as [->|Hk]; simpl.
  - destruct (owner_eqb_spec k k'); congruence.
  - now rewrite IH.
Qed.

Lemma lookup_filter_same (q : queue) (k : owner) :
  lookup (filter (fun kv => negb (owner_eqb (fst kv) k)) q) k = None.
Proof.
  induction q as [|[k0 v] q IH]; simpl; [reflexivity|].
  destruct (owner_eqb k0 k) eqn:E; simpl; [exact IH|].
  now rewrite E.
Qed.

End DefaultDictFacts.

(** ** The loops of [_worker] in closed form *)

Section WorkerLoop.

Variable frame_count : nat.

Lemma len_np_pad (s : ndarray) (d : nat) : len (np_pad s d) = (len s + d)%nat.
Proof. destruct s; simpl; now rewrite length_app, repeat_length. Qed.

Lemma len_slice_to (s : ndarray) (k : nat) : len (slice_to s k) = Nat.min k (len s).
Proof. destruct s; simpl; apply length_firstn. Qed.

Lemma len_slice_from (s : ndarray) (k : nat) : len (slice_from s k) = (len s - k)%nat.
Proof. destruct s; simpl; apply length_skipn. Qed.

Lemma len_chunk_of (s : ndarray) : len (chunk_of frame_count s) = frame_count.
Proof.
  unfold chunk_of. rewrite len_slice_to.
  destruct (Nat.leb_spec (len s) frame_count).
  - rewrite len_np_pad. lia.
  - lia.
Qed.

Lemma worker_step_chunks (o : owner) (acc : list ndarray * queue) (s : ndarray) :
  fst (worker_step frame_count o acc s) = fst acc ++ [chunk_of frame_count s].
Proof.
  destruct acc as [cs nq]. unfold worker_step, chunk_of.
  now destruct (len s <=? frame_count)%nat.
Qed.

Lemma inner_loop_chunks (o : owner) (ss : list ndarray) :
  forall acc,
    fst (fold_left (worker_step frame_count o) ss acc) =
    fst acc ++ map (chunk_of frame_count) ss.
Proof.
  induction ss as [|s ss IH]; intros acc; simpl.
  - now rewrite app_nil_r.
  - rewrite IH, worker_step_chunks, <- app_assoc. reflexivity.
Qed.

Lemma outer_loop_chunks (q : queue) :
  forall acc,
    fst (fold_left
           (fun acc item =>
              fold_left (worker_step frame_count (fst item)) (snd item) acc)
           q acc) =
    fst acc ++ all_chunks frame_count q.
Proof.
  unfold all_chunks.
  induction q as [|[o ss] q IH]; intros acc; simpl.
  - now rewrite app_nil_r.
  - rewrite IH, inner_loop_chunks, <- app_assoc. reflexivity.
Qed.

Lemma worker_loop_chunks (q : queue) :
  fst (worker_loop frame_count q) = all_chunks frame_count q.
Proof. unfold worker_loop. now rewrite outer_loop_chunks. Qed.

Lemma append_entry (nq : queue) (o : owner) (rs : list ndarray) (x : ndarray) :
  ~ In o (DefaultDict.keys nq) ->
  DefaultDict.append (entry nq o rs) o x = entry nq o (rs ++ [x]).
Proof.
  intros Hnot. destruct rs as [|r rs]; simpl.
  - rewrite <- (app_nil_r nq) at 1.
    now rewrite DefaultDictFacts.append_app_notin.
  - rewrite DefaultDictFacts.append_app_notin by assumption.
    simpl. now rewrite owner_eqb_refl.
Qed.

Lemma inner_loop_closed (nq : queue) (o : owner) :
  ~ In o (DefaultDict.keys nq) ->
  forall ss rs cs,
    fold_left (worker_step frame_count o) ss (cs, entry nq o rs) =
    (cs ++ map (chunk_of frame_count) ss,
     entry nq o (rs ++ remainders frame_count ss)).
Proof.
  intros Hnot. induction ss as [|s ss IH]; intros rs cs.
  - simpl. now rewrite !app_nil_r.
  - cbn [fold_left]. unfold worker_step at 2, remainders, chunk_of.
    cbn [filter map].
    destruct (len s <=? frame_count)%nat; cbn [negb].
    + rewrite IH, <- app_assoc. reflexivity.
    + rewrite append_entry by assumption.
      rewrite IH, <- !app_assoc. reflexivity.
Qed.

Lemma keys_entry (nq : queue) (o : owner) (rs : list ndarray) (k : owner) :
  In k (DefaultDict.keys (entry nq o rs)) -> In k (DefaultDict.keys nq) \/ k = o.
Proof.
  unfold DefaultDict.keys. destruct rs; simpl; [tauto|].
  rewrite map_app, in_app_iff. simpl. intuition.
Qed.

Lemma outer_loop_closed (q : queue) :
  forall nq cs,
    NoDup (DefaultDict.keys q) ->
    (forall k, In k (DefaultDict.keys q) -> ~ In k (DefaultDict.keys nq)) ->
    fold_left
      (fun acc item =>
         fold_left (worker_step frame_count (fst item)) (snd item) acc)
      q (cs, nq) =
    (cs ++ all_chunks frame_count q, nq ++ carried_over frame_count q).
Proof.
  unfold all_chunks, carried_over.
  induction q as [|[o ss] q IH]; intros nq cs Hnd Hdisj.
  - simpl. now rewrite !app_nil_r.
  - cbn [fold_left fst snd flat_map map filter].
    simpl in Hnd. inversion Hnd as [|? ? Ho Hq]; subst.
    assert (Hnq : ~ In o (DefaultDict.keys nq)) by (apply Hdisj; simpl; auto).
    change (cs, nq) with (cs, entry nq o []).
    rewrite (@inner_loop_closed nq o Hnq). cbn [app].
    rewrite IH; [|assumption|].
    + rewrite <- app_assoc. f_equal.
      unfold has_sounds. cbn [snd].
      destruct (remainders frame_count ss); simpl; [reflexivity|].
      now rewrite <- app_assoc.
    + intros k Hk Hin. apply keys_entry in Hin. destruct Hin as [Hin| ->].
      * apply (Hdisj k); simpl; auto.
      * contradiction.
Qed.

Lemma worker_loop_closed (q : queue) :
  NoDup (DefaultDict.keys q) ->
  worker_loop frame_count q =
  (all_chunks frame_count q, carried_over frame_count q).
Proof.
  intros Hnd. unfold worker_loop.
  rewrite outer_loop_closed; [reflexivity|assumption|].
  intros k _ [].
Qed.

Lemma worker_step_nonempty (o : owner) (acc : list ndarray * queue) (s : ndarray) :
  nonempty_lists (snd acc) ->
  nonempty_lists (snd (worker_step frame_count o acc s)).
Proof.
  destruct acc as [cs nq]. unfold worker_step.
  destruct (len s <=? frame_count)%nat; simpl; [tauto|].
  apply DefaultDictFacts.append_nonempty.
Qed.

Lemma worker_loop_nonempty (q : queue) :
  nonempty_lists (snd (worker_loop frame_count q)).
Proof.
  unfold worker_loop.
  assert (H : nonempty_lists (snd (@nil ndarray, @nil (owner * list ndarray))))
    by constructor.
  revert H. generalize (@nil ndarray, @nil (owner * list ndarray)).
  induction q as [|[o ss] q IH]; intros acc H; simpl; [assumption|].
  apply IH. clear IH. revert acc H.
  induction ss as [|s ss IHs]; intros acc H; simpl; [assumption|].
  apply IHs, worker_step_nonempty, H.
Qed.

End WorkerLoop.

(** ** The sum over the stacked chunks *)

Section Mixing.

Variable floor_divide_f64 : F64.float -> Z -> F64.float.

Lemma zip_with_length {A B C : Type} (f : A -> B -> C) (l : list A) :
  forall m, length (zip_with f l m) = Nat.min (length l) (length m).
Proof.
  induction l as [|a l IH]; intros [|b m]; simpl; auto.
Qed.

Lemma nth_zip_with {A B C : Type} (f : A -> B -> C) (da : A) (db : B) (dc : C) :
  forall l m j,
    (j < length l)%nat -> (j < length m)%nat ->
    nth j (zip_with f l m) dc = f (nth j l da) (nth j m db).
Proof.
  induction l as [|a l IH]; intros [|b m] [|j]; simpl; intros Hl Hm;
    try lia; [reflexivity|].
  apply IH; lia.
Qed.

Lemma nth_cast (row : list F64.float) (j : nat) :
  nth j (map Int16.of_float row) 0%Z = Int16.of_float (nth j row (S754_zero false)).
Proof.
  change 0%Z with (Int16.of_float (S754_zero false)). apply map_nth.
Qed.

Lemma cast_in_range (row : list F64.float) :
  Forall Int16.in_range (map Int16.of_float row).
Proof.
  apply Forall_forall. intros x Hx. apply in_map_iff in Hx.
  destruct Hx as [y [<- _]]. apply wrap_in_range.
Qed.

Lemma zip_add_in_range (acc row : list Z) :
  Forall Int16.in_range (zip_with Int16.add acc row).
Proof.
  revert row. induction acc as [|a acc IH]; intros [|b row]; simpl;
    constructor; [apply wrap_in_range|apply IH].
Qed.

(** The accumulator after the remaining rows have been added. *)
Lemma accumulate_rows (F : nat) (rows : list (list F64.float)) :
  forall acc,
    length acc = F ->
    Forall Int16.in_range acc ->
    Forall (fun r => length r = F) rows ->
    let res :=
      fold_left
        (fun acc row => zip_with Int16.add acc (map Int16.of_float row))
        rows acc in
    length res = F /\
    forall j, (j < F)%nat ->
      nth j res 0%Z =
      Int16.wrap
        (nth j acc 0 +
         Zsum (map (fun r => Int16.of_float (nth j r (S754_zero false))) rows))%Z.
Proof.
  induction rows as [|r rows IH]; intros acc Hlen Hrange Hrows; simpl.
  - split; [assumption|]. intros j Hj. rewrite Z.add_0_r.
    symmetry. apply wrap_small.
    rewrite Forall_forall in Hrange. apply Hrange, nth_In. lia.
  - inversion Hrows as [|? ? Hr Hrest]; subst.
    destruct (IH (zip_with Int16.add acc (map Int16.of_float r)))
      as [Hl Hn].
    + rewrite zip_with_length, length_map. lia.
    + apply zip_add_in_range.
    + assumption.
    + split; [exact Hl|]. intros j Hj. rewrite (Hn j Hj).
      rewrite (nth_zip_with Int16.add 0%Z 0%Z 0%Z) by (rewrite ?length_map; lia).
      rewrite nth_cast. unfold Int16.add. rewrite wrap_add_l.
      unfold Zsum. simpl. now rewrite Z.add_assoc.
Qed.

(** [np.sum(stack, axis=0, dtype=np.int16)], sample by sample. *)
Lemma np_sum_axis0_nth (F : nat) (stack : list (list F64.float)) :
  stack <> [] ->
  Forall (fun r => length r = F) stack ->
  length (np_sum_axis0_int16 stack) = F /\
  forall j, (j < F)%nat ->
    nth j (np_sum_axis0_int16 stack) 0%Z =
    Int16.wrap
      (Zsum (map (fun r => Int16.of_float (nth j r (S754_zero false))) stack)).
Proof.
  destruct stack as [|r rows]; [congruence|]. intros _ Hrows.
  inversion Hrows as [|? ? Hr Hrest]; subst. simpl.
  destruct (@accumulate_rows (length r) rows (map Int16.of_float r))
    as [Hl Hn]; [apply length_map|apply cast_in_range|assumption|].
  split; [exact Hl|]. intros j Hj. rewrite (Hn j Hj), nth_cast. reflexivity.
Qed.

Lemma np_stack_ok (F : nat) (chunks : list ndarray) :
  chunks <> [] ->
  Forall (fun c => len c = F) chunks ->
  np_stack chunks =
  Returned (if forallb is_int16 chunks
            then Int16Matrix (map int16_data chunks)
            else Float64Matrix (map astype_float chunks)).
Proof.
  destruct chunks as [|c cs]; [congruence|]. intros _ H.
  inversion H as [|? ? Hc Hcs]; subst. unfold np_stack.
  replace (forallb (fun d => Nat.eqb (len d) (len c)) cs) with true;
    [reflexivity|].
  symmetry. apply forallb_forall. intros d Hd.
  rewrite Forall_forall in Hcs. apply Nat.eqb_eq. now apply Hcs.
Qed.

Lemma length_astype_float (c : ndarray) : length (astype_float c) = len c.
Proof. destruct c; simpl; [apply length_map|reflexivity]. Qed.

Lemma length_int16_data (c : ndarray) :
  is_int16 c = true -> length (int16_data c) = len c.
Proof. destruct c; simpl; [reflexivity|discriminate]. Qed.

(** The rows of the stack all have the length of the chunks. *)
Lemma stack_rows (F : nat) (chunks : list ndarray) (n : Z) (v : F64.float) :
  Forall (fun c => len c = F) chunks ->
  let m := if forallb is_int16 chunks
           then Int16Matrix (map int16_data chunks)
           else Float64Matrix (map astype_float chunks) in
  Forall (fun r => length r = F)
         (times_volume (floor_divide floor_divide_f64 m n) v) /\
  length (times_volume (floor_divide floor_divide_f64 m n) v) = length chunks.
Proof.
  intros H. destruct (forallb is_int16 chunks) eqn:E; simpl.
  - rewrite !length_map. split; [|reflexivity].
    rewrite forallb_forall in E. rewrite Forall_forall in H.
    apply Forall_forall. intros r Hr.
    repeat (apply in_map_iff in Hr; destruct Hr as [? [<- Hr]]).
    rewrite !length_map, length_int16_data; auto.
  - rewrite !length_map. split; [|reflexivity].
    rewrite Forall_forall in H. apply Forall_forall. intros r Hr.
    repeat (apply in_map_iff in Hr; destruct Hr as [? [<- Hr]]).
    rewrite !length_map, length_astype_float; auto.
Qed.

Lemma tobytes_length (data : list Z) : length (tobytes data) = (2 * length data)%nat.
Proof.
  unfold tobytes. induction data as [|x data IH]; simpl; [reflexivity|].
  rewrite IH. lia.
Qed.

Lemma all_chunks_len (F : nat) (q : queue) :
  Forall (fun c => len c = F) (all_chunks F q).
Proof.
  unfold all_chunks. apply Forall_forall. intros c Hc.
  apply in_flat_map in Hc. destruct Hc as [kv [_ Hc]].
  apply in_map_iff in Hc. destruct Hc as [s [<- _]]. apply len_chunk_of.
Qed.

Lemma all_chunks_nonempty (F : nat) (q : queue) :
  q <> [] -> nonempty_lists q -> all_chunks F q <> [].
Proof.
  destruct q as [|[o ss] q]; [congruence|]. intros _ H.
  inversion H as [|? ? Hss _]; subst. simpl in Hss.
  destruct ss as [|s ss]; [congruence|]. unfold all_chunks. simpl. discriminate.
Qed.

(** What [_worker] does on a queue with something to play. *)
Lemma worker_continue (F : nat) (self : AudioSink) :
  _queue self <> [] ->
  nonempty_lists (_queue self) ->
  let chunks := all_chunks F (_queue self) in
  let m := if forallb is_int16 chunks
           then Int16Matrix (map int16_data chunks)
           else Float64Matrix (map astype_float chunks) in
  _worker floor_divide_f64 F self =
  (Returned
     (tobytes
        (np_sum_axis0_int16
           (times_volume
              (floor_divide floor_divide_f64 m (Z.of_nat (length chunks)))
              (_volume self))),
      paContinue),
   set_queue (snd (worker_loop F (_queue self))) self).
Proof.
  intros Hne Hinv. unfold _worker.
  destruct (_queue self) as [|kv q] eqn:Eq; [congruence|].
  cbn [DefaultDict.is_empty].
  pose proof (worker_loop_chunks F (kv :: q)) as Hc.
  destruct (worker_loop F (kv :: q)) as [chunks nq]. cbn [fst] in Hc. subst chunks.
  rewrite (@np_stack_ok F); [reflexivity| |apply all_chunks_len].
  apply all_chunks_nonempty; [discriminate|assumption].
Qed.

End Mixing.

(** ** Properties of the callback *)

Section Callback.

Variable floor_divide_f64 : F64.float -> Z -> F64.float.

Lemma keys_carried_over (F : nat) (q : queue) (k : owner) :
  In k (DefaultDict.keys (carried_over F q)) -> In k (DefaultDict.keys q).
Proof.
  unfold DefaultDict.keys, carried_over. intros H.
  apply in_map_iff in H. destruct H as [kv [<- H]].
  apply filter_In in H. destruct H as [H _].
  apply in_map_iff in H. destruct H as [kv' [<- H]]. simpl.
  apply in_map. exact H.
Qed.

Lemma lookup_carried_over (F : nat) (q : queue) (o : owner) (ss : list ndarray) :
  NoDup (DefaultDict.keys q) ->
  DefaultDict.lookup q o = Some ss ->
  DefaultDict.lookup (carried_over F q) o =
  match remainders F ss with
  | [] => None
  | r :: rs => Some (r :: rs)
  end.
Proof.
  induction q as [|[k v] q IH]; simpl; intros Hnd Hl; [discriminate|].
  inversion Hnd as [|? ? Hk Hq]; subst.
  unfold carried_over. cbn [map filter fst snd].
  destruct (owner_eqb_spec k o) as [->|Hne].
  - injection Hl as ->. unfold has_sounds at 1. cbn [snd].
    destruct (remainders F ss) as [|r rs] eqn:E.
    + apply DefaultDictFacts.mem_lookup.
      destruct (DefaultDict.mem (carried_over F q) o) eqn:M; [|exact M].
      apply DefaultDictFacts.mem_In, keys_carried_over in M. contradiction.
    + simpl. now rewrite owner_eqb_refl.
  - unfold has_sounds at 1. cbn [snd].
    destruct (remainders F v) as [|r rs].
    + now apply IH.
    + simpl. destruct (owner_eqb_spec k o); [congruence|]. now apply IH.
Qed.

Lemma worker_queue (F : nat) (self : AudioSink) :
  _queue (snd (_worker floor_divide_f64 F self)) =
  snd (worker_loop F (_queue self)).
Proof.
  unfold _worker. destruct (_queue self) as [|kv q] eqn:E; simpl.
  - now rewrite E.
  - destruct (worker_loop F (kv :: q)) as [chunks nq].
    now destruct (np_stack chunks).
Qed.

Lemma chunk_of_int16 (F : nat) (s : ndarray) :
  is_int16 s = true -> is_int16 (chunk_of F s) = true.
Proof.
  unfold chunk_of. destruct s; simpl; [|discriminate].
  now destruct (length a <=? F)%nat.
Qed.

Lemma all_chunks_int16 (F : nat) (q : queue) :
  int16_queue q -> forallb is_int16 (all_chunks F q) = true.
Proof.
  intros H. apply forallb_forall. intros c Hc. unfold all_chunks in Hc.
  apply in_flat_map in Hc. destruct Hc as [kv [Hkv Hc]].
  apply in_map_iff in Hc. destruct Hc as [s [<- Hs]].
  apply chunk_of_int16. exact (H kv s Hkv Hs).
Qed.

(** Sample [j] of the row that an int16 chunk becomes in the stack. *)
Lemma stack_row_nth (c : ndarray) (n : Z) (v : F64.float) (j : nat) :
  (j < length (int16_data c))%nat ->
  nth j (map (fun x => F64.mul (F64.of_Z x) v)
             (map (fun x => (x / n)%Z) (int16_data c)))
        (S754_zero false) =
  F64.mul (F64.of_Z (sample_at j c / n)) v.
Proof.
  intros Hj. unfold sample_at. rewrite map_map.
  rewrite (nth_indep _ (S754_zero false) (F64.mul (F64.of_Z (0 / n)) v))
    by (rewrite length_map; exact Hj).
  exact (map_nth (fun x => F64.mul (F64.of_Z (x / n)) v) (int16_data c) 0%Z j).
Qed.

(** The chunk taken from a sound, sample by sample: the first
    [frame_count] samples of the sound, then zeros up to [frame_count]. *)
Lemma chunk_of_samples (F : nat) (s : ndarray) :
  chunk_of F s =
  match s with
  | Int16Array a => Int16Array (firstn F a ++ repeat 0%Z (F - length a))
  | Float64Array a =>
      Float64Array (firstn F a ++ repeat (S754_zero false) (F - length a))
  end.
Proof.
  unfold chunk_of.
  destruct s as [a|a]; cbn [len];
    destruct (Nat.leb_spec (length a) F) as [H|H]; cbn [np_pad slice_to].
  - rewrite firstn_app, (firstn_all2 a H).
    now rewrite firstn_all2 by (rewrite repeat_length; lia).
  - replace (F - length a)%nat with 0%nat by lia. now rewrite app_nil_r.
  - rewrite firstn_app, (firstn_all2 a H).
    now rewrite firstn_all2 by (rewrite repeat_length; lia).
  - replace (F - length a)%nat with 0%nat by lia. now rewrite app_nil_r.
Qed.

Lemma flat_map_map_snd (A : Type) (f : ndarray -> A) (q : queue) :
  flat_map (fun kv => map f (snd kv)) q = map f (flat_map snd q).
Proof.
  induction q as [|kv q IH]; simpl; [reflexivity|].
  now rewrite map_app, IH.
Qed.

(** One chunk for every pending sound, in the order of the queue. *)
Lemma all_chunks_samples (F : nat) (q : queue) :
  all_chunks F q =
  map (fun sound =>
         match sound with
         | Int16Array a => Int16Array (firstn F a ++ repeat 0%Z (F - length a))
         | Float64Array a =>
             Float64Array
               (firstn F a ++ repeat (S754_zero false) (F - length a))
         end)
      (flat_map snd q).
Proof.
  unfold all_chunks. rewrite flat_map_map_snd.
  apply map_ext. intros s. apply chunk_of_samples.
Qed.



(** The samples of the frame, with the wrap-around of the accumulator. *)
Lemma worker_samples (F : nat) (self : AudioSink) :
  _queue self <> [] ->
  nonempty_lists (_queue self) ->
  int16_queue (_queue self) ->
  exists data,
    fst (_worker floor_divide_f64 F self) =
      Returned (tobytes data, paContinue) /\
    length data = F /\
    forall j, (j < F)%nat ->
      nth j data 0%Z =
      Int16.wrap (mixed_sample (all_chunks F (_queue self)) (_volume self) j).
Proof.
  intros Hne Hinv Hint.
  rewrite (@worker_continue floor_divide_f64 F self Hne Hinv). cbn [fst].
  rewrite (@all_chunks_int16 F _ Hint).
  set (chunks := all_chunks F (_queue self)).
  set (n := Z.of_nat (length chunks)).
  eexists. split; [reflexivity|].
  pose proof (all_chunks_len F (_queue self)) as Hlen. fold chunks in Hlen.
  pose proof (@all_chunks_int16 F _ Hint) as H16. fold chunks in H16.
  destruct (@stack_rows floor_divide_f64 F chunks n (_volume self) Hlen)
    as [Hrows Hcount].
  rewrite H16 in Hrows, Hcount.
  assert (Hstack : times_volume
                     (floor_divide floor_divide_f64
                        (Int16Matrix (map int16_data chunks)) n)
                     (_volume self) <> []).
  { intros E. rewrite E in Hcount. simpl in Hcount.
    apply (@all_chunks_nonempty F _ Hne Hinv). fold chunks.
    destruct chunks; [reflexivity|discriminate]. }
  destruct (@np_sum_axis0_nth F _ Hstack Hrows) as [Hl Hn].
  split; [exact Hl|]. intros j Hj.
  rewrite (Hn j Hj). f_equal.
  unfold mixed_sample. fold n. cbn [times_volume floor_divide].
  rewrite !map_map. f_equal. apply map_ext_in. intros c Hc.
  rewrite stack_row_nth; [reflexivity|].
  rewrite forallb_forall in H16. rewrite Forall_forall in Hlen.
  rewrite length_int16_data by auto. rewrite Hlen by assumption. exact Hj.
Qed.


(** C2, as amended.  On int16 sounds, each sample of the frame that
    [_worker] returns is the sum over the captured chunks of the chunk's
    sample floor-divided by the number of chunks, then multiplied by the
    volume fraction, then cast to int16, whenever this sum lies in the
    signed 16-bit range.  The division is applied to every chunk, before
    the volume and before the sum. *)
Theorem worker_mixes_per_chunk (F : nat) (self : AudioSink) :
  _queue self <> [] ->
  nonempty_lists (_queue self) ->
  int16_queue (_queue self) ->
  exists data,
    fst (_worker floor_divide_f64 F self) =
      Returned (tobytes data, paContinue) /\
    length data = F /\
    forall j, (j < F)%nat ->
      Int16.in_range
        (mixed_sample (all_chunks F (_queue self)) (_volume self) j) ->
      nth j data 0%Z =
      mixed_sample (all_chunks F (_queue self)) (_volume self) j.
Proof.
  intros Hne Hinv Hint.
  rewrite (@worker_continue floor_divide_f64 F self Hne Hinv). cbn [fst].
  rewrite (@all_chunks_int16 F _ Hint).
  set (chunks := all_chunks F (_queue self)).
  set (n := Z.of_nat (length chunks)).
  eexists. split; [reflexivity|].
  pose proof (all_chunks_len F (_queue self)) as Hlen. fold chunks in Hlen.
  pose proof (@all_chunks_int16 F _ Hint) as H16. fold chunks in H16.
  destruct (@stack_rows floor_divide_f64 F chunks n (_volume self) Hlen)
    as [Hrows Hcount].
  rewrite H16 in Hrows, Hcount.
  assert (Hstack : times_volume
                     (floor_divide floor_divide_f64
                        (Int16Matrix (map int16_data chunks)) n)
                     (_volume self) <> []).
  { intros E. rewrite E in Hcount. simpl in Hcount.
    apply (@all_chunks_nonempty F _ Hne Hinv). fold chunks.
    destruct chunks; [reflexivity|discriminate]. }
  destruct (@np_sum_axis0_nth F _ Hstack Hrows) as [Hl Hn].
  split; [exact Hl|]. intros j Hj Hrange.
  rewrite (Hn j Hj). rewrite <- (@wrap_small _ Hrange). f_equal.
  unfold mixed_sample. fold n. cbn [times_volume floor_divide].
  rewrite !map_map. f_equal. apply map_ext_in. intros c Hc.
  rewrite stack_row_nth; [reflexivity|].
  rewrite forallb_forall in H16. rewrite Forall_forall in Hlen.
  rewrite length_int16_data by auto. rewrite Hlen by assumption. exact Hj.
Qed.

(** C8.  When the queue holds something to play, every chunk that
    [_worker] captures has exactly [frame_count] samples, [np.stack]
    accepts the chunks, and the call returns [paContinue] with exactly
    [frame_count] samples (two bytes each).  The chunk of a sound is made
    of the first [frame_count] samples of the sound, followed, when the
    sound is shorter, by zero samples up to [frame_count]: the sound itself
    is kept and only zeros are added.  This holds for every frame count, so
    for every one from 1 on. *)
Theorem worker_frame_is_full (F : nat) (self : AudioSink) :
  _queue self <> [] ->
  nonempty_lists (_queue self) ->
  Forall (fun c => len c = F) (fst (worker_loop F (_queue self))) /\
  (exists m, np_stack (fst (worker_loop F (_queue self))) = Returned m) /\
  (exists data,
      fst (_worker floor_divide_f64 F self) =
        Returned (tobytes data, paContinue) /\
      length data = F) /\
  (forall b, fst (_worker floor_divide_f64 F self) = Returned (b, paContinue) ->
             length b = (2 * F)%nat) /\
  fst (worker_loop F (_queue self)) =
    flat_map
      (fun kv =>
         map (fun sound =>
                match sound with
                | Int16Array a =>
                    Int16Array (firstn F a ++ repeat 0%Z (F - length a))
                | Float64Array a =>
                    Float64Array
                      (firstn F a ++ repeat (S754_zero false) (F - length a))
                end)
             (snd kv))
      (_queue self).
Proof.
  intros Hne Hinv. rewrite worker_loop_chunks.
  pose proof (all_chunks_len F (_queue self)) as Hlen.
  pose proof (@all_chunks_nonempty F _ Hne Hinv) as Hsome.
  assert (Hdata :
    exists data,
      fst (_worker floor_divide_f64 F self) =
        Returned (tobytes data, paContinue) /\ length data = F).
  { rewrite (@worker_continue floor_divide_f64 F self Hne Hinv). cbn [fst].
    eexists. split; [reflexivity|].
    destruct (@stack_rows floor_divide_f64 F _
                (Z.of_nat (length (all_chunks F (_queue self))))
                (_volume self) Hlen) as [Hrows Hcount].
    apply np_sum_axis0_nth; [|exact Hrows].
    intros E. rewrite E in Hcount. simpl in Hcount.
    destruct (all_chunks F (_queue self)); [congruence|discriminate]. }
  split; [exact Hlen|]. split.
  { eexists. apply (@np_stack_ok F _ Hsome Hlen). }
  split; [exact Hdata|]. split.
  - intros b Hb. destruct Hdata as [data [Hd Hl]]. rewrite Hd in Hb.
    injection Hb as <-. rewrite tobytes_length, Hl. reflexivity.
  - rewrite all_chunks_samples. symmetry. apply flat_map_map_snd.
Qed.

End Callback.

(** ** Properties of the methods *)

Section MethodFacts.

Variable wavfile_read : list byte -> outcome (Z * ndarray).
Variable resample : list F64.float -> Z -> Z -> outcome (list F64.float).
Variable floor_divide_f64 : F64.float -> Z -> F64.float.

Lemma queue_ensure_stream (self : AudioSink) :
  _queue (ensure_stream self) = _queue self.
Proof.
  unfold ensure_stream. destruct (_stream self) as [[[|]]|] eqn:E; simpl;
    rewrite ?E; reflexivity.
Qed.

(** [add] either leaves the object as it is or appends one array. *)
Lemma add_cases (sound : list byte) (o : option owner) (self : AudioSink) :
  snd (add wavfile_read resample sound o self) = self \/
  exists data,
    add wavfile_read resample sound o self =
    (Returned tt,
     ensure_stream
       (set_queue
          (DefaultDict.append (_queue self)
             (match o with Some k => k | None => PyNone end) data)
          self)).
Proof.
  unfold add. destruct (wavfile_read sound) as [[rate data]|e]; [|now left].
  destruct (negb (rate =? DEFAULT_SAMPLE_RATE)%Z).
  - destruct (resample (astype_float data) rate DEFAULT_SAMPLE_RATE) as [d|e].
    + right. now exists (Float64Array d).
    + left. now destruct e.
  - right. now exists data.
Qed.

Lemma add_decoded (sound : list byte) (data : ndarray) (o : option owner)
    (self : AudioSink) :
  decodes_to wavfile_read resample sound data ->
  add wavfile_read resample sound o self =
  (Returned tt,
   ensure_stream
     (set_queue
        (DefaultDict.append (_queue self)
           (match o with Some k => k | None => PyNone end) data)
        self)).
Proof.
  intros [rate [raw [Hr H]]]. unfold add. rewrite Hr.
  destruct H as [[-> ->]|[Hne [d [Hd ->]]]].
  - now rewrite Z.eqb_refl.
  - apply Z.eqb_neq in Hne. rewrite Hne. cbn [negb]. now rewrite Hd.
Qed.

Lemma add_nonempty (sound : list byte) (o : option owner) (self : AudioSink) :
  nonempty_lists (_queue self) ->
  nonempty_lists (_queue (snd (add wavfile_read resample sound o self))).
Proof.
  intros H. destruct (add_cases sound o self) as [->|[data ->]]; [exact H|].
  cbn [snd]. rewrite queue_ensure_stream. simpl.
  now apply DefaultDictFacts.append_nonempty.
Qed.

Lemma remove_nonempty (o : owner) (self : AudioSink) :
  nonempty_lists (_queue self) ->
  nonempty_lists (_queue (snd (remove o self))).
Proof.
  intros H. unfold remove, DefaultDict.del.
  destruct (DefaultDict.mem (_queue self) o); simpl; [|exact H].
  now apply DefaultDictFacts.filter_nonempty.
Qed.

Lemma worker_nonempty (F : nat) (self : AudioSink) :
  nonempty_lists (_queue self) ->
  nonempty_lists (_queue (snd (_worker floor_divide_f64 F self))).
Proof.
  intros H. unfold _worker.
  destruct (DefaultDict.is_empty (_queue self)); [exact H|].
  pose proof (worker_loop_nonempty F (_queue self)) as Hw.
  destruct (worker_loop F (_queue self)) as [chunks nq].
  now destruct (np_stack chunks).
Qed.

Lemma pull_queue (F : nat) (self : AudioSink) :
  _queue (snd (pull floor_divide_f64 F self)) =
  _queue (snd (_worker floor_divide_f64 F self)).
Proof.
  unfold pull. destruct (_worker floor_divide_f64 F self) as [r s].
  destruct r as [[b [|]]|e]; reflexivity.
Qed.

Lemma volume_setter_queue (v : Z) (self : AudioSink) :
  _queue (snd (volume_setter v self)) = _queue self.
Proof. unfold volume_setter. now destruct ((0 <=? v)%Z && (v <=? 100)%Z). Qed.

(** The keys of the queue stay distinct, as those of a dictionary are. *)
Lemma reachable_keys_distinct (self : AudioSink) :
  reachable wavfile_read resample floor_divide_f64 self ->
  NoDup (DefaultDict.keys (_queue self)).
Proof.
  intros Hr. induction Hr as [v self Hi|sound o self _ IH|o self _ IH|
                              v self _ IH|F self _ IH].
  - unfold init, volume_setter in Hi.
    destruct ((0 <=? v)%Z && (v <=? 100)%Z); [|discriminate].
    injection Hi as <-. constructor.
  - destruct (add_cases sound o self) as [->|[data ->]]; [exact IH|].
    cbn [snd]. rewrite queue_ensure_stream. simpl.
    now apply DefaultDictFacts.append_NoDup.
  - unfold remove, DefaultDict.del.
    destruct (DefaultDict.mem (_queue self) o); simpl; [|exact IH].
    now apply DefaultDictFacts.filter_NoDup.
  - now rewrite volume_setter_queue.
  - rewrite pull_queue, worker_queue, (@worker_loop_closed F _ IH). cbn [snd].
    unfold carried_over. apply DefaultDictFacts.filter_NoDup.
    unfold DefaultDict.keys. rewrite map_map. exact IH.
Qed.

(** C9.  In every state reached from a fresh object, every key of the
    queue is bound to a non-empty list of sounds; [add], [remove] and one
    call of [_worker] each keep it so, and [_worker] leaves no entry for an
    owner none of whose sounds is longer than the frame. *)
Theorem queue_lists_nonempty :
  (forall self,
      reachable wavfile_read resample floor_divide_f64 self ->
      nonempty_lists (_queue self)) /\
  (forall sound o self,
      nonempty_lists (_queue self) ->
      nonempty_lists (_queue (snd (add wavfile_read resample sound o self)))) /\
  (forall o self,
      nonempty_lists (_queue self) ->
      nonempty_lists (_queue (snd (remove o self)))) /\
  (forall F self,
      nonempty_lists (_queue self) ->
      nonempty_lists (_queue (snd (_worker floor_divide_f64 F self)))) /\
  (forall F self o ss,
      NoDup (DefaultDict.keys (_queue self)) ->
      DefaultDict.lookup (_queue self) o = Some ss ->
      remainders F ss = [] ->
      DefaultDict.lookup (_queue (snd (_worker floor_divide_f64 F self))) o
      = None).
Proof.
  split; [|split; [|split; [|split]]].
  - intros self Hr. induction Hr as [v self Hi| | | |].
    + unfold init, volume_setter in Hi.
      destruct ((0 <=? v)%Z && (v <=? 100)%Z); [|discriminate].
      injection Hi as <-. constructor.
    + now apply add_nonempty.
    + now apply remove_nonempty.
    + now rewrite volume_setter_queue.
    + rewrite pull_queue. now apply worker_nonempty.
  - intros. now apply add_nonempty.
  - intros. now apply remove_nonempty.
  - intros. now apply worker_nonempty.
  - intros F self o ss Hnd Hl Hr.
    rewrite worker_queue, (@worker_loop_closed F _ Hnd). cbn [snd].
    rewrite (@lookup_carried_over F _ o ss Hnd Hl), Hr. reflexivity.
Qed.

(** C3 (the code departs from it).  [remove] of an owner that has no
    entry leaves the object unchanged but raises [KeyError]: the handler
    is for [IndexError]. *)
Theorem remove_absent_owner_raises (o : owner) (self : AudioSink) :
  DefaultDict.lookup (_queue self) o = None ->
  remove o self = (Raised KeyError, self).
Proof.
  intros H. apply DefaultDictFacts.mem_lookup in H.
  unfold remove, DefaultDict.del. now rewrite H.
Qed.

(** C6.  The volume setter refuses a value outside [0, 100] with the
    assertion's error and leaves the object as it was; a value inside is
    accepted and the stored fraction becomes [value / 100]. *)
Theorem volume_setter_checks_range (value : Z) (self : AudioSink) :
  ((value < 0 \/ 100 < value)%Z ->
   volume_setter value self = (Raised AssertionError, self)) /\
  ((0 <= value <= 100)%Z ->
   volume_setter value self =
     (Returned tt,
      set_volume (F64.div (F64.of_Z value) (F64.of_Z 100)) self) /\
   _volume (snd (volume_setter value self)) =
     F64.div (F64.of_Z value) (F64.of_Z 100)).
Proof.
  unfold volume_setter. split; intros H.
  - replace ((0 <=? value)%Z && (value <=? 100)%Z) with false; [reflexivity|].
    symmetry. apply andb_false_iff. rewrite Z.leb_gt, Z.leb_gt. lia.
  - replace ((0 <=? value)%Z && (value <=? 100)%Z) with true; [now split|].
    symmetry. apply andb_true_iff. rewrite !Z.leb_le. lia.
Qed.

(** C7.  When the rate of a clip is not 16000 and [resample] raises
    [ValueError], [add] returns normally and the object is unchanged: the
    queue, the volume and the stream are the same and the player has been
    asked nothing. *)
Theorem add_drops_clip_on_resample_failure (sound : list byte)
    (o : option owner) (self : AudioSink) (rate : Z) (data : ndarray) :
  wavfile_read sound = Returned (rate, data) ->
  rate <> DEFAULT_SAMPLE_RATE ->
  resample (astype_float data) rate DEFAULT_SAMPLE_RATE = Raised ValueError ->
  add wavfile_read resample sound o self = (Returned tt, self).
Proof.
  intros Hr Hne Hv. unfold add. rewrite Hr.
  apply Z.eqb_neq in Hne. rewrite Hne. cbn [negb]. now rewrite Hv.
Qed.



End MethodFacts.

(** ** The scenario of two owners *)

Section Scenario.

Variable wavfile_read : list byte -> outcome (Z * ndarray).
Variable resample : list F64.float -> Z -> Z -> outcome (list F64.float).
Variable floor_divide_f64 : F64.float -> Z -> F64.float.

(** C4.  Owner 1 adds 100 samples of value 1000 and owner 2 adds 200
    samples of value 2000 to a fresh object at volume 100.  With a frame
    count of 100, the first call of [_worker] returns 100 samples of value
    1500 with [paContinue] and leaves nothing for owner 1 and 100 samples
    for owner 2; the second call returns 100 samples of value 2000 with
    [paContinue]; the third returns no sample with [paComplete]. *)
Theorem two_owner_scenario (clip1 clip2 : list byte) :
  wavfile_read clip1 =
    Returned (DEFAULT_SAMPLE_RATE, Int16Array (repeat 1000%Z 100)) ->
  wavfile_read clip2 =
    Returned (DEFAULT_SAMPLE_RATE, Int16Array (repeat 2000%Z 200)) ->
  let s0 := snd (init 100) in
  let s1 := snd (add wavfile_read resample clip1 (Some (OwnerId 1)) s0) in
  let s2 := snd (add wavfile_read resample clip2 (Some (OwnerId 2)) s1) in
  let r1 := _worker floor_divide_f64 100 s2 in
  let r2 := _worker floor_divide_f64 100 (snd r1) in
  let r3 := _worker floor_divide_f64 100 (snd r2) in
  fst r1 = Returned (tobytes (repeat 1500%Z 100), paContinue) /\
  frame_of (fst r1) = Some (repeat 1500%Z 100) /\
  DefaultDict.lookup (_queue (snd r1)) (OwnerId 1) = None /\
  DefaultDict.lookup (_queue (snd r1)) (OwnerId 2) =
    Some [Int16Array (repeat 2000%Z 100)] /\
  fst r2 = Returned (tobytes (repeat 2000%Z 100), paContinue) /\
  frame_of (fst r2) = Some (repeat 2000%Z 100) /\
  _queue (snd r2) = [] /\
  fst r3 = Returned ([], paComplete).
Proof.
  intros H1 H2.
  assert (D1 : decodes_to wavfile_read resample clip1
                 (Int16Array (repeat 1000%Z 100))).
  { exists DEFAULT_SAMPLE_RATE, (Int16Array (repeat 1000%Z 100)).
    split; [exact H1|]. left. split; reflexivity. }
  assert (D2 : decodes_to wavfile_read resample clip2
                 (Int16Array (repeat 2000%Z 200))).
  { exists DEFAULT_SAMPLE_RATE, (Int16Array (repeat 2000%Z 200)).
    split; [exact H2|]. left. split; reflexivity. }
  cbv zeta.
  rewrite (add_decoded (Some (OwnerId 1)) (snd (init 100)) D1). cbn [snd].
  rewrite (add_decoded (Some (OwnerId 2)) _ D2). cbn [snd].
  vm_compute. repeat split.
Qed.

(** C5 (the code departs from it).  After the setter has stored
    [p / 100], the getter returns the float [100 * (p / 100)], which is
    not [p] for eight of the values from 0 to 100; for 29 it is the float
    just below 29. *)
Theorem volume_getter_misses (self : AudioSink) :
  filter (fun p => negb (F64.eqb (volume (snd (volume_setter p self)))
                                 (F64.of_Z p)))
         (map Z.of_nat (seq 0 101)) =
    [7; 14; 28; 29; 55; 56; 57; 58]%Z /\
  volume (snd (volume_setter 29 self)) =
    S754_finite false 8162774324609023 (-48) /\
  F64.of_Z 29 = S754_finite false 8162774324609024 (-48).
Proof. vm_compute. repeat split. Qed.

End Scenario.

(** ** Concrete runs *)

Lemma nonempty_lists_check (q : queue) :
  forallb has_sounds q = true -> nonempty_lists q.
Proof.
  intros H. apply Forall_forall. intros kv Hkv.
  rewrite forallb_forall in H. specialize (H kv Hkv).
  unfold has_sounds in H. destruct (snd kv); [discriminate|discriminate].
Qed.

Lemma int16_queue_check (q : queue) :
  forallb (fun kv => forallb is_int16 (snd kv)) q = true -> int16_queue q.
Proof.
  intros H kv s Hkv Hs. rewrite forallb_forall in H.
  specialize (H kv Hkv). rewrite forallb_forall in H. now apply H.
Qed.

Lemma clip_decodes (samples : list Z) :
  frombuffer (tobytes samples) = samples ->
  decodes_to clip_read clip_resample (clip 16000 samples) (Int16Array samples).
Proof.
  intros H. exists 16000%Z, (Int16Array samples). split.
  - unfold clip, clip_read. cbn [app]. rewrite H. reflexivity.
  - left. split; reflexivity.
Qed.


(** C2 as stated fails: two chunks of value 1 give 0 and not 1, since each
    is divided by two before the sum; three chunks of value -32768 give
    -10923 each, whose sum -32769 comes out as 32767. *)
Lemma mix_differs_from_specified :
  ~ mixes_as_specified 1 two_quiet /\
  frame_of (fst (_worker clip_floor_divide 1 two_quiet)) = Some [0%Z] /\
  ~ mixes_as_specified 1 three_low /\
  frame_of (fst (_worker clip_floor_divide 1 three_low)) = Some [32767%Z] /\
  mixed_sample (all_chunks 1 (_queue three_low)) (_volume three_low) 0 =
    (-32769)%Z.
Proof.
  unfold mixes_as_specified. vm_compute.
  repeat split; discriminate.
Qed.


(** The mix of two owners with one sample each. *)
Lemma worker_mixes_per_chunk_witness :
  exists data,
    fst (_worker clip_floor_divide 1 two_quiet) =
      Returned (tobytes data, paContinue) /\
    length data = 1%nat /\
    forall j, (j < 1)%nat ->
      Int16.in_range
        (mixed_sample (all_chunks 1 (_queue two_quiet)) (_volume two_quiet) j) ->
      nth j data 0%Z =
      mixed_sample (all_chunks 1 (_queue two_quiet)) (_volume two_quiet) j.
Proof.
  apply (@worker_mixes_per_chunk clip_floor_divide 1 two_quiet).
  - vm_compute. discriminate.
  - apply nonempty_lists_check. vm_compute. reflexivity.
  - apply int16_queue_check. vm_compute. reflexivity.
Defined.

(** [remove] on a fresh object. *)
Lemma remove_absent_owner_raises_witness :
  DefaultDict.lookup (_queue fresh) (OwnerId 7) = None /\
  remove (OwnerId 7) fresh = (Raised KeyError, fresh).
Proof.
  split; [reflexivity|].
  apply remove_absent_owner_raises. reflexivity.
Defined.

(** The scenario on the concrete clips. *)
Lemma two_owner_scenario_witness :
  frame_of
    (fst (_worker clip_floor_divide 100
            (submit (OwnerId 2) 16000 (repeat 2000%Z 200)
               (submit (OwnerId 1) 16000 (repeat 1000%Z 100) fresh)))) =
  Some (repeat 1500%Z 100).
Proof.
  refine (proj1 (proj2
    (@two_owner_scenario clip_read clip_resample clip_floor_divide
       (clip 16000 (repeat 1000%Z 100)) (clip 16000 (repeat 2000%Z 200))
       _ _))); vm_compute; reflexivity.
Defined.

(** A refused and an accepted volume. *)
Lemma volume_setter_checks_range_witness :
  volume_setter 150 fresh = (Raised AssertionError, fresh) /\
  _volume (snd (volume_setter 50 fresh)) = F64.div (F64.of_Z 50) (F64.of_Z 100).
Proof.
  split.
  - apply (proj1 (volume_setter_checks_range 150 fresh)). right. lia.
  - apply (proj2 (volume_setter_checks_range 50 fresh)). lia.
Defined.

(** A clip of one sample at 8000 Hz is dropped. *)
Lemma add_drops_clip_on_resample_failure_witness :
  add clip_read clip_resample (clip 8000 [5%Z]) (Some (OwnerId 1)) fresh =
  (Returned tt, fresh).
Proof.
  apply (@add_drops_clip_on_resample_failure clip_read clip_resample
           (clip 8000 [5%Z]) (Some (OwnerId 1)) fresh 8000 (Int16Array [5%Z])).
  - vm_compute. reflexivity.
  - unfold DEFAULT_SAMPLE_RATE. lia.
  - vm_compute. reflexivity.
Defined.

(** A frame of one sample from two owners. *)
Lemma worker_frame_is_full_witness :
  exists data,
    fst (_worker clip_floor_divide 1 two_quiet) =
      Returned (tobytes data, paContinue) /\
    length data = 1%nat.
Proof.
  assert (H1 : _queue two_quiet <> []) by (vm_compute; discriminate).
  assert (H2 : nonempty_lists (_queue two_quiet))
    by (apply nonempty_lists_check; vm_compute; reflexivity).
  exact (proj1 (proj2 (proj2
    (@worker_frame_is_full clip_floor_divide 1 two_quiet H1 H2)))).
Defined.

(** The invariant after two calls of [add], and after a [remove]. *)
Lemma queue_lists_nonempty_witness :
  nonempty_lists (_queue two_quiet) /\
  nonempty_lists (_queue (snd (remove (OwnerId 1) two_quiet))).
Proof.
  assert (H : nonempty_lists (_queue two_quiet)).
  { apply (proj1 (queue_lists_nonempty clip_read clip_resample clip_floor_divide)).
    unfold two_quiet, submit.
    apply reach_add, reach_add. apply (reach_init _ _ _ 100). reflexivity. }
  split; [exact H|].
  apply (proj1 (proj2 (proj2
    (queue_lists_nonempty clip_read clip_resample clip_floor_divide)))).
  exact H.
Defined.


(** ** Further properties of [add] and [remove] *)

Section QueueMethods.

Variable wavfile_read : list byte -> outcome (Z * ndarray).
Variable resample : list F64.float -> Z -> Z -> outcome (list F64.float).
Variable floor_divide_f64 : F64.float -> Z -> F64.float.

Lemma filter_absent (q : queue) (k : owner) :
  DefaultDict.mem q k = false ->
  filter (fun kv => negb (owner_eqb (fst kv) k)) q = q.
Proof.
  unfold DefaultDict.mem, DefaultDict.keys.
  induction q as [|[k' v] q IH]; simpl; intros H; [reflexivity|].
  apply orb_false_iff in H. destruct H as [Hk Hq].
  destruct (owner_eqb_spec k' k) as [->|_].
  - rewrite owner_eqb_refl in Hk. discriminate.
  - simpl. now rewrite IH.
Qed.

Lemma filter_append (q : queue) (k : owner) (x : ndarray) :
  filter (fun kv => negb (owner_eqb (fst kv) k)) (DefaultDict.append q k x) =
  filter (fun kv => negb (owner_eqb (fst kv) k)) q.
Proof.
  induction q as [|[k' v] q IH]; simpl.
  - now rewrite owner_eqb_refl.
  - destruct (owner_eqb k' k) eqn:E; simpl; rewrite E; simpl;
      [reflexivity|now rewrite IH].
Qed.

Lemma mem_append (q : queue) (k : owner) (x : ndarray) :
  DefaultDict.mem (DefaultDict.append q k x) k = true.
Proof.
  destruct (DefaultDict.mem (DefaultDict.append q k x) k) eqn:M; [reflexivity|].
  apply DefaultDictFacts.mem_lookup in M.
  rewrite DefaultDictFacts.lookup_append_same in M. discriminate.
Qed.

(** [remove] of an owner that has an entry returns normally, deletes that
    entry and nothing else: the other owners keep their lists, the entries
    that remain keep their order, and the volume, the stream and the
    player's log are untouched. *)
Theorem remove_present_owner (o : owner) (self : AudioSink)
    (ss : list ndarray) :
  DefaultDict.lookup (_queue self) o = Some ss ->
  let self' := snd (remove o self) in
  fst (remove o self) = Returned tt /\
  _queue self' =
    filter (fun kv => negb (owner_eqb (fst kv) o)) (_queue self) /\
  DefaultDict.lookup (_queue self') o = None /\
  (forall o', o' <> o ->
     DefaultDict.lookup (_queue self') o' = DefaultDict.lookup (_queue self) o') /\
  _volume self' = _volume self /\
  _stream self' = _stream self /\
  player self' = player self.
Proof.
  intros Hl.
  assert (Hm : DefaultDict.mem (_queue self) o = true).
  { destruct (DefaultDict.mem (_queue self) o) eqn:M; [reflexivity|].
    apply DefaultDictFacts.mem_lookup in M. congruence. }
  unfold remove, DefaultDict.del. rewrite Hm. cbn.
  repeat split.
  - apply DefaultDictFacts.lookup_filter_same.
  - intros o' Ho. apply DefaultDictFacts.lookup_filter_other. congruence.
Qed.

(** A clip that [add] accepts is appended at the end of its owner's list,
    after what the owner had pending; the lists of the other owners and the
    volume are unchanged. *)
Theorem add_appends_to_owner (sound : list byte) (data : ndarray) (o : owner)
    (self : AudioSink) :
  decodes_to wavfile_read resample sound data ->
  let self' := snd (add wavfile_read resample sound (Some o) self) in
  DefaultDict.lookup (_queue self') o =
    Some (match DefaultDict.lookup (_queue self) o with
          | Some pending => pending ++ [data]
          | None => [data]
          end) /\
  (forall o', o' <> o ->
     DefaultDict.lookup (_queue self') o' = DefaultDict.lookup (_queue self) o') /\
  _volume self' = _volume self.
Proof.
  intros Hd. cbv zeta. rewrite (add_decoded (Some o) self Hd). cbn [snd].
  rewrite queue_ensure_stream. cbn [set_queue _queue].
  split; [apply DefaultDictFacts.lookup_append_same|]. split.
  - intros o' Ho. apply DefaultDictFacts.lookup_append_other. congruence.
  - unfold ensure_stream. cbn.
    destruct (_stream self) as [[[|]]|] eqn:E; cbn; rewrite ?E; reflexivity.
Qed.

(** [remove] right after [add] for the same owner leaves the queue as it
    was before the [add], less that owner's entry: the new clip is discarded
    together with whatever the owner had pending.  This holds whatever [add]
    did with the clip (appended, dropped or refused). *)
Theorem remove_undoes_add (sound : list byte) (o : owner) (self : AudioSink) :
  _queue (snd (remove o (snd (add wavfile_read resample sound (Some o) self)))) =
  filter (fun kv => negb (owner_eqb (fst kv) o)) (_queue self).
Proof.
  destruct (add_cases wavfile_read resample sound (Some o) self)
    as [->|[data ->]].
  - unfold remove, DefaultDict.del.
    destruct (DefaultDict.mem (_queue self) o) eqn:M; cbn; [reflexivity|].
    symmetry. now apply filter_absent.
  - cbn [snd]. unfold remove, DefaultDict.del.
    rewrite queue_ensure_stream. cbn [set_queue _queue].
    rewrite mem_append. cbn. apply filter_append.
Qed.




Lemma worker_frame (F : nat) (self : AudioSink) :
  _volume (snd (_worker floor_divide_f64 F self)) = _volume self /\
  _stream (snd (_worker floor_divide_f64 F self)) = _stream self /\
  player (snd (_worker floor_divide_f64 F self)) = player self.
Proof.
  unfold _worker. destruct (DefaultDict.is_empty (_queue self)); [now repeat split|].
  destruct (worker_loop F (_queue self)) as [chunks nq].
  destruct (np_stack chunks); now repeat split.
Qed.


(** Only [add] touches the stream.  [remove], the volume setter and the
    callback [_worker], which PortAudio runs in a thread of its own, leave
    [_stream] and the player's log as they are; [remove] and [_worker] leave
    the volume too, and the setter leaves the queue. *)
Theorem stream_is_left_to_add (self : AudioSink) :
  (forall o,
     _stream (snd (remove o self)) = _stream self /\
     player (snd (remove o self)) = player self /\
     _volume (snd (remove o self)) = _volume self) /\
  (forall v,
     _stream (snd (volume_setter v self)) = _stream self /\
     player (snd (volume_setter v self)) = player self /\
     _queue (snd (volume_setter v self)) = _queue self) /\
  (forall F,
     _stream (snd (_worker floor_divide_f64 F self)) = _stream self /\
     player (snd (_worker floor_divide_f64 F self)) = player self /\
     _volume (snd (_worker floor_divide_f64 F self)) = _volume self).
Proof.
  split; [|split].
  - intros o. unfold remove, DefaultDict.del.
    destruct (DefaultDict.mem (_queue self) o); cbn; now repeat split.
  - intros v. unfold volume_setter.
    destruct ((0 <=? v)%Z && (v <=? 100)%Z); cbn; now repeat split.
  - intros F. destruct (worker_frame F self) as [Hv [Hs Hp]]. now repeat split.
Qed.

End QueueMethods.

(** ** Successive calls of the callback *)

Section Draining.

Variable floor_divide_f64 : F64.float -> Z -> F64.float.

Lemma slice_from_twice (s : ndarray) (F G : nat) :
  slice_from (slice_from s F) G = slice_from s (F + G).
Proof.
  destruct s; simpl; rewrite skipn_skipn; f_equal; f_equal; lia.
Qed.

Lemma remainders_compose (F G : nat) (ss : list ndarray) :
  remainders G (remainders F ss) = remainders (F + G) ss.
Proof.
  unfold remainders. induction ss as [|s ss IH]; [reflexivity|].
  cbn [filter].
  destruct (Nat.leb_spec (len s) F) as [Hle|Hgt]; cbn [negb].
  - replace (len s <=? F + G)%nat with true
      by (symmetry; apply Nat.leb_le; lia).
    cbn [negb]. exact IH.
  - cbn [map filter]. rewrite len_slice_from.
    destruct (Nat.leb_spec (len s - F) G) as [Hle'|Hgt'].
    + replace (len s <=? F + G)%nat with true
        by (symmetry; apply Nat.leb_le; lia).
      cbn [negb]. exact IH.
    + replace (len s <=? F + G)%nat with false
        by (symmetry; apply Nat.leb_gt; lia).
      cbn [negb map]. rewrite slice_from_twice. f_equal. exact IH.
Qed.

Lemma carried_over_cons (F : nat) (o : owner) (ss : list ndarray) (q : queue) :
  carried_over F ((o, ss) :: q) =
  match remainders F ss with
  | [] => carried_over F q
  | r :: rs => (o, r :: rs) :: carried_over F q
  end.
Proof.
  unfold carried_over. cbn [map filter fst snd]. unfold has_sounds at 1.
  cbn [snd]. now destruct (remainders F ss).
Qed.

Lemma carried_over_compose (F G : nat) (q : queue) :
  carried_over G (carried_over F q) = carried_over (F + G) q.
Proof.
  induction q as [|[o ss] q IH]; [reflexivity|].
  rewrite (carried_over_cons F), (carried_over_cons (F + G)).
  rewrite <- (remainders_compose F G ss).
  destruct (remainders F ss) as [|r rs]; [exact IH|].
  rewrite carried_over_cons, IH. reflexivity.
Qed.

Lemma carried_over_NoDup (F : nat) (q : queue) :
  NoDup (DefaultDict.keys q) -> NoDup (DefaultDict.keys (carried_over F q)).
Proof.
  intros H. unfold carried_over. apply DefaultDictFacts.filter_NoDup.
  unfold DefaultDict.keys. rewrite map_map. exact H.
Qed.

Lemma worker_queue_closed (F : nat) (self : AudioSink) :
  NoDup (DefaultDict.keys (_queue self)) ->
  _queue (snd (_worker floor_divide_f64 F self)) = carried_over F (_queue self).
Proof.
  intros H. rewrite worker_queue, (@worker_loop_closed F _ H). reflexivity.
Qed.

Lemma pulls_queue (F n : nat) :
  forall self,
    NoDup (DefaultDict.keys (_queue self)) ->
    _queue (pulls floor_divide_f64 F (S n) self) =
    carried_over (S n * F) (_queue self).
Proof.
  induction n as [|n IH]; intros self H.
  - cbn [pulls]. rewrite (worker_queue_closed F self H).
    replace (1 * F)%nat with F by lia. reflexivity.
  - change (pulls floor_divide_f64 F (S (S n)) self)
      with (pulls floor_divide_f64 F (S n)
                  (snd (_worker floor_divide_f64 F self))).
    rewrite IH.
    + rewrite (worker_queue_closed F self H), carried_over_compose.
      replace (F + S n * F)%nat with (S (S n) * F)%nat by lia. reflexivity.
    + rewrite (worker_queue_closed F self H). now apply carried_over_NoDup.
Qed.

Lemma filter_nil {A : Type} (f : A -> bool) (l : list A) :
  filter f l = [] <-> forall x, In x l -> f x = false.
Proof.
  induction l as [|a l IH]; simpl; [tauto|].
  destruct (f a) eqn:E; split.
  - discriminate.
  - intros H. specialize (H a (or_introl eq_refl)). congruence.
  - intros H x [<-|Hx]; [exact E|]. now apply IH.
  - intros H. apply IH. intros x Hx. apply H. now right.
Qed.

Lemma carried_over_nil (K : nat) (q : queue) :
  carried_over K q = [] <->
  forall kv s, In kv q -> In s (snd kv) -> (len s <= K)%nat.
Proof.
  unfold carried_over. split.
  - intros H0 kv s Hkv Hs.
    pose proof (proj1 (filter_nil _ _) H0
                  (fst kv, remainders K (snd kv))
                  (in_map (fun kv => (fst kv, remainders K (snd kv))) q kv Hkv))
      as H.
    unfold has_sounds in H. cbn [snd] in H.
    destruct (remainders K (snd kv)) eqn:E; [|discriminate].
    unfold remainders in E. apply map_eq_nil in E.
    pose proof (proj1 (filter_nil _ _) E s Hs) as E'.
    apply negb_false_iff, Nat.leb_le in E'. exact E'.
  - intros H. apply filter_nil.
    intros x Hx. apply in_map_iff in Hx. destruct Hx as [kv [<- Hkv]].
    unfold has_sounds. cbn [snd].
    replace (remainders K (snd kv)) with (@nil ndarray); [reflexivity|].
    symmetry. unfold remainders.
    replace (filter (fun s => negb (len s <=? K)%nat) (snd kv))
      with (@nil ndarray); [reflexivity|].
    symmetry. apply filter_nil. intros s Hs.
    apply negb_false_iff, Nat.leb_le. now apply (H kv s).
Qed.

Lemma longest_sound (q : queue) :
  exists K, forall kv s, In kv q -> In s (snd kv) -> (len s <= K)%nat.
Proof.
  induction q as [|[o ss] q [K HK]].
  - exists O. intros kv s [].
  - assert (Hss : exists L, forall s, In s ss -> (len s <= L)%nat).
    { clear. induction ss as [|s ss [L HL]].
      - exists O. intros s [].
      - exists (Nat.max (len s) L). intros s' [<-|Hs]; [lia|].
        specialize (HL s' Hs). lia. }
    destruct Hss as [L HL]. exists (Nat.max K L).
    intros kv s [<-|Hkv] Hs.
    + specialize (HL s Hs). lia.
    + specialize (HK kv s Hkv Hs). lia.
Qed.

(** Two calls of [_worker], for [F] and then for [G] frames, leave the
    queue that one call for [F + G] frames leaves: what a call takes from
    the sounds depends only on the number of frames asked for so far. *)
Theorem worker_calls_add_up (F G : nat) (self : AudioSink) :
  NoDup (DefaultDict.keys (_queue self)) ->
  _queue (snd (_worker floor_divide_f64 G
                 (snd (_worker floor_divide_f64 F self)))) =
  _queue (snd (_worker floor_divide_f64 (F + G) self)).
Proof.
  intros H.
  rewrite (worker_queue_closed (F + G) self H).
  rewrite worker_queue_closed.
  - rewrite (worker_queue_closed F self H). apply carried_over_compose.
  - rewrite (worker_queue_closed F self H). now apply carried_over_NoDup.
Qed.

(** The queue drains.  After [n >= 1] calls of [_worker] for [F] frames the
    queue is empty exactly when no pending sound had more than [n * F]
    samples; the call that finds it empty answers [paComplete] with no data
    and changes nothing; and for [F >= 1] some number of calls empties the
    queue, whatever it holds. *)
Theorem callback_drains_queue (F : nat) (self : AudioSink) :
  NoDup (DefaultDict.keys (_queue self)) ->
  (forall n,
     _queue (pulls floor_divide_f64 F (S n) self) = [] <->
     forall kv s, In kv (_queue self) -> In s (snd kv) ->
                  (len s <= S n * F)%nat) /\
  (forall n,
     _queue (pulls floor_divide_f64 F n self) = [] ->
     _worker floor_divide_f64 F (pulls floor_divide_f64 F n self) =
     (Returned ([], paComplete), pulls floor_divide_f64 F n self)) /\
  ((1 <= F)%nat ->
   exists n, _queue (pulls floor_divide_f64 F (S n) self) = []).
Proof.
  intros H. split; [|split].
  - intros n. rewrite (pulls_queue F n self H). apply carried_over_nil.
  - intros n Hn. unfold _worker. now rewrite Hn.
  - intros HF. destruct (longest_sound (_queue self)) as [K HK].
    exists K. rewrite (pulls_queue F K self H). apply carried_over_nil.
    intros kv s Hkv Hs. specialize (HK kv s Hkv Hs). nia.
Qed.

End Draining.

(** ** Volumes and what the callback plays *)

Section Playing.

Variable wavfile_read : list byte -> outcome (Z * ndarray).
Variable resample : list F64.float -> Z -> Z -> outcome (list F64.float).
Variable floor_divide_f64 : F64.float -> Z -> F64.float.

Lemma all_from_sound (P : Z -> bool) (n : positive) :
  forall lo,
    all_from P lo n = true ->
    forall x, (lo <= x < lo + Zpos n)%Z -> P x = true.
Proof.
  induction n as [n IH|n IH|]; intros lo H x Hx; cbn [all_from] in H.
  - apply andb_true_iff in H. destruct H as [H H2].
    apply andb_true_iff in H. destruct H as [H0 H1].
    destruct (Z.eq_dec x lo) as [->|Hne]; [exact H0|].
    destruct (Z_lt_ge_dec x (lo + 1 + Zpos n)).
    + apply (IH (lo + 1)%Z H1). lia.
    + apply (IH (lo + 1 + Zpos n)%Z H2). lia.
  - apply andb_true_iff in H. destruct H as [H1 H2].
    destruct (Z_lt_ge_dec x (lo + Zpos n)).
    + apply (IH lo H1). lia.
    + apply (IH (lo + Zpos n)%Z H2). lia.
  - replace x with lo by lia. exact H.
Qed.

(** Multiplying an int16 sample by the fraction stored for 100 percent and
    casting back gives the sample. *)
Lemma full_gain_exact (x : Z) :
  Int16.in_range x ->
  Int16.of_float (F64.mul (F64.of_Z x) (gain_of 100)) = x.
Proof.
  intros [Hlo Hhi]. unfold Int16.min_signed, Int16.max_signed in *.
  replace (gain_of 100) with (S754_finite false 4503599627370496 (-52))
    by (vm_compute; reflexivity).
  apply Z.eqb_eq.
  apply (@all_from_sound
           (fun x => Z.eqb (Int16.of_float
                              (F64.mul (F64.of_Z x)
                                 (S754_finite false 4503599627370496 (-52))))
                           x)
           65536 (-32768)%Z); [vm_compute; reflexivity|lia].
Qed.

(** Multiplying by the fraction stored for 0 percent gives 0, whatever
    the other factor. *)
Lemma zero_gain_silent (y : F64.float) :
  Int16.of_float (F64.mul y (gain_of 0)) = 0%Z.
Proof.
  replace (gain_of 0) with (S754_zero false) by (vm_compute; reflexivity).
  destruct y as [s|s| |s m e]; reflexivity.
Qed.

Lemma gain_in_unit_interval (p : Z) :
  (0 <= p <= 100)%Z ->
  f64_leb (F64.of_Z 0) (gain_of p) = true /\
  f64_leb (gain_of p) (F64.of_Z 1) = true.
Proof.
  intros Hp. apply andb_true_iff.
  apply (@all_from_sound
           (fun p => f64_leb (F64.of_Z 0) (gain_of p)
                     && f64_leb (gain_of p) (F64.of_Z 1))
           101 0%Z); [vm_compute; reflexivity|lia].
Qed.

Lemma byte_of_Z_value (z : Z) :
  Z.of_N (Byte.to_N (byte_of_Z z)) = (z mod 256)%Z.
Proof.
  unfold byte_of_Z.
  pose proof (Z.mod_pos_bound z 256 ltac:(lia)) as Hb.
  destruct (Byte.of_N (Z.to_N (z mod 256))) as [b|] eqn:E.
  - apply Byte.to_of_N in E. rewrite E. apply Z2N.id. lia.
  - apply Byte.of_N_None_iff in E. lia.
Qed.

Lemma frombuffer_tobytes (l : list Z) :
  Forall Int16.in_range l -> frombuffer (tobytes l) = l.
Proof.
  clear wavfile_read resample floor_divide_f64.
  induction 1 as [|x l [Hlo Hhi] _ IH]; [reflexivity|].
  unfold tobytes in *. cbn [flat_map int16_tobytes app frombuffer].
  rewrite IH, !byte_of_Z_value. f_equal.
  unfold Int16.wrap, Int16.min_signed, Int16.max_signed in *.
  Z.to_euclidean_division_equations. lia.
Qed.

Lemma times_volume_elems (m : matrix) (n : Z) (v : F64.float) :
  forall r y,
    In r (times_volume (floor_divide floor_divide_f64 m n) v) -> In y r ->
    exists x, y = F64.mul x v.
Proof.
  intros r y Hr Hy. destruct m as [rows|rows]; cbn in Hr;
    rewrite map_map in Hr; apply in_map_iff in Hr; destruct Hr as [r0 [<- _]];
    rewrite map_map in Hy; apply in_map_iff in Hy; destruct Hy as [x [<- _]];
    eexists; reflexivity.
Qed.

Lemma Zsum_zero (l : list Z) : (forall x, In x l -> x = 0%Z) -> Zsum l = 0%Z.
Proof.
  unfold Zsum. induction l as [|a l IH]; intros H; [reflexivity|].
  simpl. rewrite (H a (or_introl eq_refl)), IH; [reflexivity|].
  intros x Hx. apply H. now right.
Qed.

(** At volume 0 the sink plays silence: as long as the queue holds
    something, the callback answers [paContinue] with a full frame of zero
    samples, for int16 and for resampled sounds alike. *)
Theorem zero_volume_plays_silence (F : nat) (self : AudioSink) :
  _queue self <> [] ->
  nonempty_lists (_queue self) ->
  _volume self = gain_of 0 ->
  fst (_worker floor_divide_f64 F self) =
  Returned (tobytes (repeat 0%Z F), paContinue).
Proof.
  intros Hne Hinv Hv.
  rewrite (@worker_continue floor_divide_f64 F self Hne Hinv). cbn [fst].
  rewrite Hv.
  set (chunks := all_chunks F (_queue self)).
  set (m := if forallb is_int16 chunks
            then Int16Matrix (map int16_data chunks)
            else Float64Matrix (map astype_float chunks)).
  set (n := Z.of_nat (length chunks)).
  pose proof (all_chunks_len F (_queue self)) as Hlen. fold chunks in Hlen.
  destruct (@stack_rows floor_divide_f64 F chunks n (gain_of 0) Hlen)
    as [Hrows Hcount]. fold m in Hrows, Hcount.
  assert (Hstack : times_volume (floor_divide floor_divide_f64 m n) (gain_of 0)
                   <> []).
  { intros E. rewrite E in Hcount. simpl in Hcount.
    apply (@all_chunks_nonempty F _ Hne Hinv). fold chunks.
    destruct chunks; [reflexivity|discriminate]. }
  destruct (@np_sum_axis0_nth F _ Hstack Hrows) as [Hl Hn].
  assert (Hd : np_sum_axis0_int16
                 (times_volume (floor_divide floor_divide_f64 m n) (gain_of 0))
               = repeat 0%Z F).
  { apply (nth_ext _ _ 0%Z 0%Z); [now rewrite repeat_length|].
    intros j Hj. rewrite Hl in Hj. rewrite (Hn j Hj), nth_repeat.
    rewrite Zsum_zero; [reflexivity|].
    intros x Hx. apply in_map_iff in Hx. destruct Hx as [r [<- Hr]].
    destruct (nth_in_or_default j r (S754_zero false)) as [Hin | ->];
      [|reflexivity].
    destruct (@times_volume_elems m n (gain_of 0) r _ Hr Hin) as [y ->].
    apply zero_gain_silent. }
  now rewrite Hd.
Qed.

Lemma Forall_take {A : Type} (P : A -> Prop) (k : nat) (l : list A) :
  Forall P l -> Forall P (firstn k l).
Proof.
  intros H. rewrite <- (firstn_skipn k l) in H.
  apply Forall_app in H. tauto.
Qed.

Lemma Forall_drop {A : Type} (P : A -> Prop) (k : nat) (l : list A) :
  Forall P l -> Forall P (skipn k l).
Proof.
  intros H. rewrite <- (firstn_skipn k l) in H.
  apply Forall_app in H. tauto.
Qed.

Lemma frames_empty_queue (F n : nat) (self : AudioSink) :
  _queue self = [] -> frames floor_divide_f64 F n self = [].
Proof.
  intros H. destruct n; [reflexivity|].
  cbn [frames]. unfold _worker. rewrite H. reflexivity.
Qed.

Lemma chunk_in_range (F : nat) (s : list Z) :
  Forall Int16.in_range s ->
  Forall Int16.in_range (int16_data (chunk_of F (Int16Array s))).
Proof.
  intros H. unfold chunk_of. cbn [len].
  destruct (length s <=? F)%nat; cbn [np_pad slice_to int16_data].
  - apply Forall_take. apply Forall_app. split; [exact H|].
    apply Forall_forall. intros x Hx. apply repeat_spec in Hx. subst x.
    unfold Int16.in_range, Int16.min_signed, Int16.max_signed. lia.
  - now apply Forall_take.
Qed.

(** One call on a queue that holds a single int16 sound, at volume 100. *)
Lemma single_sound_call (F : nat) (o : owner) (s : list Z) (self : AudioSink) :
  _queue self = [(o, [Int16Array s])] ->
  Forall Int16.in_range s ->
  _volume self = gain_of 100 ->
  _worker floor_divide_f64 F self =
  (Returned (tobytes (int16_data (chunk_of F (Int16Array s))), paContinue),
   set_queue (if (length s <=? F)%nat then []
              else [(o, [Int16Array (skipn F s)])]) self).
Proof.
  intros Hq Hs Hv.
  assert (Hne : _queue self <> []) by (rewrite Hq; discriminate).
  assert (Hinv : nonempty_lists (_queue self)).
  { rewrite Hq. constructor; [discriminate|constructor]. }
  rewrite (@worker_continue floor_divide_f64 F self Hne Hinv).
  rewrite Hq, Hv. f_equal.
  - do 2 f_equal.
    unfold all_chunks. cbn [flat_map map snd app].
    set (c := chunk_of F (Int16Array s)).
    assert (Hc : is_int16 c = true) by (now apply chunk_of_int16).
    cbn [forallb length]. rewrite Hc. cbn [andb map].
    cbn [floor_divide times_volume map np_sum_axis0_int16 fold_left].
    rewrite !map_map.
    rewrite <- (map_id (int16_data c)) at 2. f_equal.
    apply map_ext_in. intros x Hx. change (Z.of_nat 1) with 1%Z.
    rewrite Z.div_1_r. apply full_gain_exact.
    pose proof (@chunk_in_range F s Hs) as Hr. fold c in Hr.
    rewrite Forall_forall in Hr. now apply Hr.
  - f_equal. unfold worker_loop. cbn [fold_left fst snd].
    unfold worker_step. cbn [len].
    destruct (length s <=? F)%nat; reflexivity.
Qed.

(** A single int16 clip on an otherwise empty queue is played as it is at
    volume 100: put end to end, the frames that successive callbacks return
    are the samples of the clip, followed by less than one frame of zeros. *)
Theorem single_clip_is_played_verbatim (F n : nat) (o : owner) (s : list Z)
    (self : AudioSink) :
  _queue self = [(o, [Int16Array s])] ->
  s <> [] ->
  Forall Int16.in_range s ->
  _volume self = gain_of 100 ->
  (1 <= F)%nat ->
  (length s <= n * F)%nat ->
  exists pad,
    (pad < F)%nat /\
    concat (frames floor_divide_f64 F n self) = s ++ repeat 0%Z pad.
Proof.
  clear wavfile_read resample. revert s self. induction n as [|n IH]; intros s self Hq Hne Hs Hv HF Hn.
  - destruct s; [congruence|simpl in Hn; lia].
  - cbn [frames]. rewrite (@single_sound_call F o s self Hq Hs Hv).
    cbn [frame_of]. rewrite (@frombuffer_tobytes _ (@chunk_in_range F s Hs)).
    unfold chunk_of. cbn [len].
    destruct (Nat.leb_spec (length s) F) as [Hle|Hgt].
    + exists (F - length s)%nat. split.
      * destruct s; [congruence|simpl; lia].
      * rewrite frames_empty_queue by reflexivity.
        cbn [np_pad slice_to int16_data concat]. rewrite app_nil_r.
        apply firstn_all2. rewrite length_app, repeat_length. lia.
    + destruct (IH (skipn F s)
                   (set_queue [(o, [Int16Array (skipn F s)])] self))
        as [pad [Hpad Hc]].
      * reflexivity.
      * intros E. apply (f_equal (@length Z)) in E.
        rewrite length_skipn in E. simpl in E. lia.
      * now apply Forall_drop.
      * exact Hv.
      * exact HF.
      * rewrite length_skipn. simpl in Hn. lia.
      * exists pad. split; [exact Hpad|].
        cbn [slice_to int16_data concat]. rewrite Hc, app_assoc, firstn_skipn.
        reflexivity.
Qed.

Lemma add_volume (sound : list byte) (o : option owner) (self : AudioSink) :
  _volume (snd (add wavfile_read resample sound o self)) = _volume self.
Proof.
  destruct (add_cases wavfile_read resample sound o self)
    as [->|[data ->]]; [reflexivity|].
  cbn [snd]. unfold ensure_stream. cbn.
  destruct (_stream self) as [[[|]]|] eqn:E; cbn; rewrite ?E; reflexivity.
Qed.

(** The volume stays a fraction: whatever is done with the object, the
    stored volume is [p / 100] for an integer [p] from 0 to 100, and so a
    float between 0 and 1; the sink never amplifies. *)
Theorem volume_stays_a_fraction (self : AudioSink) :
  in_use wavfile_read resample floor_divide_f64 self ->
  (exists p, (0 <= p <= 100)%Z /\ _volume self = gain_of p) /\
  f64_leb (F64.of_Z 0) (_volume self) = true /\
  f64_leb (_volume self) (F64.of_Z 1) = true.
Proof.
  intros Hr.
  assert (H : exists p, (0 <= p <= 100)%Z /\ _volume self = gain_of p).
  { induction Hr as [v self Hi|sound o self _ IH|o self _ IH|
                     v self _ IH|F self _ IH|s self _ IH Hs].
    - unfold init, volume_setter in Hi.
      destruct ((0 <=? v)%Z && (v <=? 100)%Z) eqn:E; [|discriminate].
      injection Hi as <-. exists v. split; [|reflexivity].
      apply andb_true_iff in E. rewrite !Z.leb_le in E. exact E.
    - now rewrite add_volume.
    - unfold remove, DefaultDict.del.
      destruct (DefaultDict.mem (_queue self) o); cbn; exact IH.
    - unfold volume_setter.
      destruct ((0 <=? v)%Z && (v <=? 100)%Z) eqn:E; cbn; [|exact IH].
      exists v. split; [|reflexivity].
      apply andb_true_iff in E. rewrite !Z.leb_le in E. exact E.
    - destruct (worker_frame floor_divide_f64 F self) as [-> _]. exact IH.
    - exact IH. }
  split; [exact H|]. destruct H as [p [Hp ->]].
  now apply gain_in_unit_interval.
Qed.

End Playing.

(** * Properties of the chat commands *)

Module ChatFacts.
Import Ascii String Chat.
Local Open Scope string_scope.

Section Requests.

Variable userid : Type.
Variable get_userid_from_name : string -> Z -> outcome userid.
Variable int : string -> outcome Z.

Lemma ban_is_no_attack (msg : string) :
  prefix "/ban" msg = true \/ prefix "/slowban" msg = true ->
  prefix "/attack" msg = false.
Proof.
  destruct msg as [|c1 [|c2 r]]; cbn [prefix].
  - intros [H|H]; discriminate.
  - destruct (ascii_dec "/" c1); reflexivity.
  - destruct (ascii_dec "/" c1); [|reflexivity].
    destruct (ascii_dec "a" c2) as [<-|]; [|reflexivity].
    simpl. intros [H|H]; discriminate.
Qed.

Lemma attack_second_character (msg : string) :
  prefix "/attack" msg = true -> get 1 msg = Some "a"%char.
Proof.
  destruct msg as [|c1 [|c2 r]]; cbn [prefix get].
  - discriminate.
  - destruct (ascii_dec "/" c1); discriminate.
  - destruct (ascii_dec "/" c1); [|discriminate].
    destruct (ascii_dec "a" c2) as [<-|]; [reflexivity|discriminate].
Qed.

(** An [/attack] command never names its target: the field [target] is
    the second character of the message, the letter [a] of the command
    itself, whatever follows.  The field [order] is the third word, or
    [None] when there is none. *)
Theorem attack_target_is_the_letter_a (msg : string) :
  prefix "/attack" msg = true ->
  request get_userid_from_name int msg =
  Returned [("type", Str userid "attack");
            ("target", Str userid "a");
            ("order", match nth_error (split msg) 2 with
                      | Some w => Str userid w
                      | None => PyNoneValue userid
                      end)].
Proof.
  intros H. unfold request. rewrite H, (attack_second_character msg H).
  destruct (Nat.leb_spec 3 (List.length (split msg))) as [Hle|Hlt];
    [reflexivity|].
  replace (nth_error (split msg) 2) with (@None string); [reflexivity|].
  symmetry. apply nth_error_None. lia.
Qed.

(** A [/ban] or [/slowban] command of fewer than four words raises
    [IndexError], which ends [send_messages]: the messages typed after it
    are never sent. *)
Theorem short_ban_ends_the_sender (msg : string)
    (later : list (option string)) :
  prefix "/ban" msg = true \/ prefix "/slowban" msg = true ->
  (List.length (split msg) < 4)%nat ->
  request get_userid_from_name int msg = Raised IndexError /\
  send_messages get_userid_from_name int (Some msg :: later) =
    ([], Failed IndexError).
Proof.
  intros Hban Hlen.
  assert (Hr : request get_userid_from_name int msg = Raised IndexError).
  { unfold request. rewrite (ban_is_no_attack msg Hban).
    replace (prefix "/ban" msg || prefix "/slowban" msg)%bool with true
      by (symmetry; apply orb_true_iff; exact Hban).
    unfold ban_data, item.
    replace (4 <=? List.length (split msg))%nat with false
      by (symmetry; apply Nat.leb_gt; exact Hlen).
    cbn [andb].
    replace (nth_error (split msg) 3) with (@None string); [reflexivity|].
    symmetry. apply nth_error_None. lia. }
  split; [exact Hr|]. cbn [send_messages]. now rewrite Hr.
Qed.

(** Messages that are no command are sent as they are, one request each
    and in the order they were typed, until a [None] ends the coroutine;
    nothing that comes after the [None] is read. *)
Theorem plain_messages_are_sent_in_order (msgs : list string)
    (later : list (option string)) :
  (forall m, In m msgs ->
     prefix "/attack" m = false /\ prefix "/ban" m = false /\
     prefix "/slowban" m = false) ->
  send_messages get_userid_from_name int (map Some msgs ++ None :: later)%list =
  (map plain msgs, Finished).
Proof.
  induction msgs as [|m msgs IH]; intros H; [reflexivity|].
  cbn [map List.app send_messages].
  destruct (H m (or_introl eq_refl)) as [Ha [Hb Hs]].
  unfold request at 1. rewrite Ha, Hb, Hs. cbn [orb].
  rewrite IH; [reflexivity|].
  intros m' Hm'. apply H. now right.
Qed.

End Requests.

Lemma part_app (n : string) (u : ascii) (rest : string) :
  (n ++ String u "") ++ rest = n ++ String u rest.
Proof. induction n as [|c n IH]; simpl; [reflexivity|now rewrite IH]. Qed.

Lemma skip_digits_number (n : string) (u : ascii) (rest : string) :
  all_digits n = true -> is_digit u = false ->
  skip_digits (n ++ String u rest) = String u rest.
Proof.
  intros Hn Hu. induction n as [|c n IH]; cbn [append skip_digits].
  - now rewrite Hu.
  - cbn [all_digits] in Hn. apply andb_true_iff in Hn. destruct Hn as [Hc Hn].
    rewrite Hc. now apply IH.
Qed.

Lemma optional_group_takes (u : ascii) (n rest : string) :
  n <> "" -> all_digits n = true -> is_digit u = false ->
  optional_group u (n ++ String u rest) = rest.
Proof.
  intros Hne Hn Hu. unfold optional_group.
  rewrite (skip_digits_number n u rest Hn Hu), Ascii.eqb_refl.
  destruct n as [|c n]; [congruence|]. cbn [append].
  cbn [all_digits] in Hn. apply andb_true_iff in Hn. now rewrite (proj1 Hn).
Qed.

Lemma optional_group_passes (u u' : ascii) (n rest : string) :
  all_digits n = true -> is_digit u' = false -> Ascii.eqb u' u = false ->
  optional_group u (n ++ String u' rest) = n ++ String u' rest.
Proof.
  intros Hn Hu He. unfold optional_group.
  rewrite (skip_digits_number n u' rest Hn Hu), He.
  destruct (n ++ String u' rest) as [|c s]; [reflexivity|].
  now destruct (is_digit c).
Qed.

(** The timeouts that a ban accepts: any of a number of days, hours,
    minutes and seconds, in this order, each written as digits followed by
    [d], [h], [m] or [s], and nothing else. *)
Theorem timeout_parts_are_accepted (d h m s : option string) :
  is_number d -> is_number h -> is_number m -> is_number s ->
  is_timeout (part d "d" ++ part h "h" ++ part m "m" ++ part s "s") = true.
Proof.
  unfold is_timeout, is_number, part.
  destruct d as [d|], h as [h|], m as [m|], s as [s|];
    intros Hd Hh Hm Hs; cbn [append];
    rewrite ?part_app, ?append_nil_r;
    repeat first
      [ rewrite optional_group_takes by (tauto || reflexivity)
      | rewrite optional_group_passes by (tauto || reflexivity) ];
    reflexivity.
Qed.

Lemma skip_digits_suffix (s : string) : exists pre, s = pre ++ skip_digits s.
Proof.
  induction s as [|c s [pre IH]]; cbn [skip_digits].
  - now exists "".
  - destruct (is_digit c).
    + exists (String c pre). cbn [append]. now rewrite <- IH.
    + now exists "".
Qed.

Lemma optional_group_suffix (u : ascii) (s : string) :
  optional_group u s = s \/
  exists pre, s = pre ++ String u (optional_group u s).
Proof.
  unfold optional_group. destruct s as [|c s]; [now left|].
  destruct (is_digit c); [|now left].
  destruct (skip_digits_suffix (String c s)) as [pre Hpre].
  destruct (skip_digits (String c s)) as [|c' rest]; [now left|].
  destruct (Ascii.eqb_spec c' u) as [<-|_]; [|now left].
  right. exists pre. exact Hpre.
Qed.

Lemma last_char_app (pre s : string) :
  s <> "" -> last_char (pre ++ s) = last_char s.
Proof.
  intros Hs. induction pre as [|c pre IH]; [reflexivity|].
  cbn [append last_char]. rewrite IH.
  destruct (pre ++ s) eqn:E; [|reflexivity].
  destruct pre; [|discriminate]. simpl in E. congruence.
Qed.

Lemma ends_well_back (units : list ascii) (u : ascii) (s : string) :
  In u units -> ends_well units (optional_group u s) -> ends_well units s.
Proof.
  intros Hu H. destruct (optional_group_suffix u s) as [E|[pre E]].
  - now rewrite E in H.
  - right. rewrite E. rewrite last_char_app by discriminate.
    destruct H as [->|[c [Hc Hin]]].
    + exists u. split; [reflexivity|exact Hu].
    + exists c. split; [|exact Hin].
      cbn [last_char]. destruct (optional_group u s); [discriminate|exact Hc].
Qed.

(** A word that the pattern accepts is empty or ends with a unit (or
    with a newline after it). *)
Lemma timeout_ends_with_a_unit (w : string) :
  is_timeout w = true ->
  ends_well ["d"; "h"; "m"; "s"; "010"]%char w.
Proof.
  unfold is_timeout. intros H.
  apply (@ends_well_back _ "d"%char); [simpl; tauto|].
  apply (@ends_well_back _ "h"%char); [simpl; tauto|].
  apply (@ends_well_back _ "m"%char); [simpl; tauto|].
  apply (@ends_well_back _ "s"%char); [simpl; tauto|].
  destruct (optional_group "s" _) as [|c [|c' r]]; [now left| |discriminate].
  right. exists c. split; [reflexivity|].
  apply Ascii.eqb_eq in H. subst c. simpl. tauto.
Qed.

Lemma no_space_app (w : string) (c : ascii) :
  no_space (w ++ String c "") = no_space w && negb (is_space c).
Proof.
  induction w as [|a w IH]; cbn [append no_space].
  - now rewrite andb_true_r.
  - now rewrite IH, andb_assoc.
Qed.

Lemma split_from_no_space (s : string) :
  forall word w,
    match word with Some w0 => no_space w0 = true | None => True end ->
    In w (split_from s word) -> no_space w = true.
Proof.
  induction s as [|c s IH]; intros word w Hword Hin; cbn [split_from] in Hin.
  - destruct word as [w0|]; [|contradiction].
    destruct Hin as [<-|[]]. exact Hword.
  - destruct (is_space c) eqn:E.
    + destruct word as [w0|].
      * destruct Hin as [<-|Hin]; [exact Hword|]. now apply (IH None).
      * now apply (IH None).
    + apply (IH _ w) in Hin; [exact Hin|].
      destruct word as [w0|].
      * now rewrite no_space_app, Hword, E.
      * cbn [no_space]. now rewrite E.
Qed.

Lemma last_in_split (l : list string) (c : ascii) :
  last_char (List.last l "") = Some c -> In (List.last l "") l.
Proof.
  induction l as [|w l IH]; [discriminate|].
  destruct l as [|w' l]; [now left|].
  intros H. right. now apply IH.
Qed.

Lemma last_char_no_space (w : string) (c : ascii) :
  no_space w = true -> last_char w = Some c -> is_space c = false.
Proof.
  induction w as [|a w IH]; [discriminate|].
  cbn [no_space last_char]. intros Hn Hl.
  apply andb_true_iff in Hn. destruct Hn as [Ha Hw].
  destruct w as [|b w].
  - injection Hl as <-. now apply negb_true_iff.
  - now apply IH.
Qed.

Section Bans.
Variable userid : Type.
Variable get_userid_from_name : string -> Z -> outcome userid.
Variable int : string -> outcome Z.

(** A ban whose last word does not end with [d], [h], [m] or [s] is sent,
    if it is sent at all, with the default timeout ["0s"]: a duration in
    another unit, like the [2j] of the example in the source, is not
    understood as a timeout. *)
Theorem ban_timeout_needs_a_unit (msg : string) (data : dict userid) (c : ascii) :
  prefix "/ban" msg = true \/ prefix "/slowban" msg = true ->
  last_char (List.last (split msg) "") = Some c ->
  ~ In c ["d"; "h"; "m"; "s"]%char ->
  request get_userid_from_name int msg = Returned data ->
  In ("timeout", Str userid "0s") data.
Proof.
  intros Hban Hc Hnot Hr.
  assert (Hsp : is_space c = false).
  { apply (@last_char_no_space (List.last (split msg) "")); [|exact Hc].
    apply (@split_from_no_space msg None); [exact I|].
    now apply (@last_in_split _ c). }
  assert (Ht : is_timeout (List.last (split msg) "") = false).
  { destruct (is_timeout (List.last (split msg) "")) eqn:E; [|reflexivity].
    exfalso.
    apply timeout_ends_with_a_unit in E. destruct E as [E|[c' [Hc' Hin]]].
    - rewrite E in Hc. discriminate.
    - rewrite Hc in Hc'. injection Hc' as <-.
      destruct Hin as [H|[H|[H|[H|[H|[]]]]]];
        try (apply Hnot; simpl; tauto).
      subst c. vm_compute in Hsp. discriminate. }
  unfold request in Hr. rewrite (ban_is_no_attack msg Hban) in Hr.
  replace (prefix "/ban" msg || prefix "/slowban" msg)%bool with true in Hr
    by (symmetry; apply orb_true_iff; exact Hban).
  unfold ban_data in Hr. rewrite Ht, andb_false_r in Hr.
  destruct (item (split msg) 3) as [w|e]; [|discriminate].
  destruct (item (split msg) 0) as [w0|e]; [|discriminate].
  destruct (item (split msg) 1) as [w1|e]; [|discriminate].
  destruct (item (split msg) 2) as [w2|e]; [|discriminate].
  destruct (int_of_order int (OrderWord w)) as [n|e]; [|discriminate].
  destruct (get_userid_from_name w2 (n - 1)%Z) as [u|e]; [|discriminate].
  injection Hr as <-. simpl. tauto.
Qed.
End Bans.

Lemma color_pairs_cover :
  forallb
    (fun colors : nat * nat =>
       let '(f, b) := colors in
       (f =? b)%nat
       || existsb
            (fun call : nat * nat * nat =>
               let '(n, f', b') := call in
               (n =? 7 * f + b + if (b <? f)%nat then 1 else 0)%nat
               && (f' =? f)%nat && (b' =? b)%nat)
            _init_color_pairs)
    (list_prod (seq 0 8) (seq 0 8)) = true.
Proof. vm_compute. reflexivity. Qed.

(** The client runs only when the configuration file exists: without it
    no [WebsocketClient] is created, whatever the command line says.  With
    it, the server, the channel, the port and the cookie are each the value
    of the file when the file has the key and the value of the command line
    otherwise, and no key is ever missing. *)
Theorem configuration_file_is_needed (value : Type) (args : arguments value) :
  main args None = None /\
  forall yaml_config,
    main args (Some yaml_config) =
    Some (Returned (setting yaml_config "server" (server args),
                    setting yaml_config "channel" (channel args),
                    setting yaml_config "port" (port args),
                    setting yaml_config "cookie" (cookie args))).
Proof.
  split; [reflexivity|]. intros yaml. unfold main, load_config, setting.
  cbn [map fst fold_left].
  destruct (config_get yaml "channel"), (config_get yaml "post"),
    (config_get yaml "cookie"), (config_get yaml "server"),
    (config_get yaml "port"); reflexivity.
Qed.

(** [_init_color_pairs] registers 56 colour pairs, numbered from 1 to 56
    without a gap: one for every front and back colour among 8 that differ,
    the pair of [front] and [back] under the number
    [7 * front + back], plus 1 when [back < front]; no pair has the same
    colour twice. *)
Theorem color_pairs_are_numbered :
  map (fun call => fst (fst call)) _init_color_pairs = seq 1 56 /\
  (forall front back,
      (front < 8)%nat -> (back < 8)%nat -> front <> back ->
      In ((7 * front + back + if (back <? front)%nat then 1 else 0)%nat,
          front, back) _init_color_pairs) /\
  (forall number front back,
      In (number, front, back) _init_color_pairs ->
      front <> back /\ (front < 8)%nat /\ (back < 8)%nat /\
      number = (7 * front + back + if (back <? front)%nat then 1 else 0)%nat).
Proof.
  split; [vm_compute; reflexivity|]. split.
  - intros f b Hf Hb Hne.
    pose proof (proj1 (forallb_forall _ _) color_pairs_cover (f, b)) as H.
    cbv beta iota in H.
    assert (Hin : In (f, b) (list_prod (seq 0 8) (seq 0 8)))
      by (apply in_prod; apply in_seq; lia).
    specialize (H Hin). apply orb_true_iff in H.
    destruct H as [H|H]; [apply Nat.eqb_eq in H; contradiction|].
    apply existsb_exists in H. destruct H as [[[n f'] b'] [Hc H]].
    apply andb_true_iff in H. destruct H as [H Hb'].
    apply andb_true_iff in H. destruct H as [Hn Hf'].
    apply Nat.eqb_eq in Hn, Hf', Hb'. subst. exact Hc.
  - intros n f b Hin. vm_compute in Hin.
    repeat (destruct Hin as [Hin|Hin];
            [injection Hin as <- <- <-; repeat split; (congruence || lia || reflexivity)|]).
    contradiction.
Qed.

End ChatFacts.

(** ** The mix at full volume *)

Section FullVolume.

Variable floor_divide_f64 : F64.float -> Z -> F64.float.

Lemma div_in_range (x n : Z) :
  Int16.in_range x -> (1 <= n)%Z -> Int16.in_range (x / n).
Proof.
  unfold Int16.in_range, Int16.min_signed, Int16.max_signed.
  intros Hx Hn. Z.to_euclidean_division_equations. nia.
Qed.

Lemma sum_of_quotients (n : Z) (l : list Z) :
  (1 <= n)%Z ->
  Forall Int16.in_range l ->
  (n * Zsum (map (fun x => x / n) l) <= 32767 * Z.of_nat (length l))%Z /\
  ((-32768 - (n - 1)) * Z.of_nat (length l)
   <= n * Zsum (map (fun x => x / n) l))%Z.
Proof.
  intros Hn. unfold Zsum.
  induction 1 as [|x l [Hlo Hhi] _ [IH1 IH2]]; [simpl; lia|].
  unfold Int16.min_signed, Int16.max_signed in *.
  cbn [map fold_right length]. rewrite Nat2Z.inj_succ.
  assert (Hq : (n * (x / n) <= x /\ x - (n - 1) <= n * (x / n))%Z)
    by (Z.to_euclidean_division_equations; nia).
  lia.
Qed.

Lemma sum_of_quotients_low (n : Z) (l : list Z) :
  (1 <= n)%Z ->
  (forall x, In x l -> (-32768 + (n - 1) <= x)%Z) ->
  (-32768 * Z.of_nat (length l) <= n * Zsum (map (fun x => x / n) l))%Z.
Proof.
  intros Hn. unfold Zsum. induction l as [|x l IH]; intros H; [simpl; lia|].
  cbn [map fold_right length]. rewrite Nat2Z.inj_succ.
  assert (Hx : (-32768 + (n - 1) <= x)%Z) by (apply H; now left).
  assert (Hq : (x - (n - 1) <= n * (x / n))%Z)
    by (Z.to_euclidean_division_equations; nia).
  assert (IH' : (-32768 * Z.of_nat (length l)
                 <= n * fold_right Z.add 0 (map (fun x => x / n) l))%Z).
  { apply IH. intros y Hy. apply H. now right. }
  lia.
Qed.

Lemma sample_at_in_range (F j : nat) (q : queue) (c : ndarray) :
  int16_queue q -> int16_samples q ->
  In c (all_chunks F q) -> Int16.in_range (sample_at j c).
Proof.
  intros H16 Hs Hc. unfold all_chunks in Hc.
  apply in_flat_map in Hc. destruct Hc as [kv [Hkv Hc]].
  apply in_map_iff in Hc. destruct Hc as [s [<- Hin]].
  pose proof (H16 kv s Hkv Hin) as Hi.
  destruct s as [a|a]; [|discriminate].
  assert (Ha : Forall Int16.in_range a).
  { apply Forall_forall. intros x Hx. exact (Hs kv (Int16Array a) x Hkv Hin Hx). }
  pose proof (@chunk_in_range F a Ha) as Hr.
  unfold sample_at.
  destruct (nth_in_or_default j (int16_data (chunk_of F (Int16Array a))) 0%Z)
    as [Hn|Hn].
  - rewrite Forall_forall in Hr. now apply Hr.
  - rewrite Hn. unfold Int16.in_range, Int16.min_signed, Int16.max_signed. lia.
Qed.

(** At volume 100 the floats play no part: each sample of a frame mixed
    from [n] int16 chunks is the sum [S] of the chunks' samples, each
    floor-divided by [n], as the int16 accumulator holds it.  [S] never
    exceeds 32767 and is never below [-32768 - (n - 1)]; it is in the range
    of an int16, and so returned as it is, as soon as no chunk has a sample
    among the [n - 1] lowest values. *)
Theorem full_volume_mix_stays_in_range (F : nat) (self : AudioSink) :
  _queue self <> [] ->
  nonempty_lists (_queue self) ->
  int16_queue (_queue self) ->
  int16_samples (_queue self) ->
  _volume self = gain_of 100 ->
  let chunks := all_chunks F (_queue self) in
  let n := Z.of_nat (length chunks) in
  exists data,
    fst (_worker floor_divide_f64 F self) =
      Returned (tobytes data, paContinue) /\
    forall j, (j < F)%nat ->
      let S := Zsum (map (fun c => (sample_at j c / n)%Z) chunks) in
      nth j data 0%Z = Int16.wrap S /\
      (-32768 - (n - 1) <= S <= 32767)%Z /\
      ((forall c, In c chunks -> (-32768 + (n - 1) <= sample_at j c)%Z) ->
       nth j data 0%Z = S).
Proof.
  intros Hne Hinv H16 Hs Hv chunks n.
  destruct (@worker_samples floor_divide_f64 F self Hne Hinv H16) as [data [Hd [_ Hj]]].
  exists data. split; [exact Hd|]. intros j HjF S.
  assert (Hn : (1 <= n)%Z).
  { pose proof (@all_chunks_nonempty F _ Hne Hinv) as Hc. fold chunks in Hc.
    unfold n. destruct chunks; [congruence|]. simpl length. lia. }
  assert (Hr : Forall Int16.in_range (map (sample_at j) chunks)).
  { apply Forall_forall. intros x Hx. apply in_map_iff in Hx.
    destruct Hx as [c [<- Hc]]. exact (@sample_at_in_range F j _ c H16 Hs Hc). }
  assert (HS : S = Zsum (map (fun x => (x / n)%Z) (map (sample_at j) chunks))).
  { unfold S. now rewrite map_map. }
  assert (Hm : mixed_sample chunks (_volume self) j = S).
  { unfold mixed_sample. fold n. unfold S. f_equal. apply map_ext_in.
    intros c Hc. rewrite Hv. apply full_gain_exact.
    apply div_in_range; [|exact Hn].
    exact (@sample_at_in_range F j _ c H16 Hs Hc). }
  destruct (@sum_of_quotients n _ Hn Hr) as [Hup Hlow].
  rewrite <- HS in Hup, Hlow. rewrite length_map in Hup, Hlow.
  fold n in Hup, Hlow.
  split; [|split].
  - rewrite (Hj j HjF). fold chunks. now rewrite Hm.
  - nia.
  - intros Hmin. rewrite (Hj j HjF). fold chunks. rewrite Hm.
    apply wrap_small.
    assert (Hlow' : (-32768 * Z.of_nat (length (map (sample_at j) chunks))
                     <= n * S)%Z).
    { rewrite HS. apply sum_of_quotients_low; [exact Hn|].
      intros x Hx. apply in_map_iff in Hx. destruct Hx as [c [<- Hc]].
      now apply Hmin. }
    rewrite length_map in Hlow'. fold n in Hlow'.
    unfold Int16.in_range, Int16.min_signed, Int16.max_signed. nia.
Qed.

End FullVolume.

(** * Concrete runs of the further properties *)

Lemma int16_samples_check (q : queue) :
  forallb
    (fun kv =>
       forallb (fun s =>
                  forallb (fun x => ((-32768 <=? x) && (x <=? 32767))%Z)
                          (int16_data s))
               (snd kv))
    q = true ->
  int16_samples q.
Proof.
  intros H kv s x Hkv Hs Hx. rewrite forallb_forall in H.
  specialize (H kv Hkv). rewrite forallb_forall in H.
  specialize (H s Hs). rewrite forallb_forall in H.
  specialize (H x Hx). apply andb_true_iff in H.
  rewrite !Z.leb_le in H. exact H.
Qed.

(** Owner 1 is removed from a queue that owners 1 and 2 share. *)
Lemma remove_present_owner_witness :
  DefaultDict.lookup (_queue two_quiet) (OwnerId 1) = Some [Int16Array [1%Z]] /\
  fst (remove (OwnerId 1) two_quiet) = Returned tt /\
  DefaultDict.lookup (_queue (snd (remove (OwnerId 1) two_quiet))) (OwnerId 2) =
    DefaultDict.lookup (_queue two_quiet) (OwnerId 2).
Proof.
  assert (H : DefaultDict.lookup (_queue two_quiet) (OwnerId 1) =
              Some [Int16Array [1%Z]]) by reflexivity.
  split; [exact H|].
  destruct (@remove_present_owner (OwnerId 1) two_quiet _ H)
    as [Hr [_ [_ [Ho _]]]].
  split; [exact Hr|]. apply Ho. discriminate.
Defined.

(** A second clip of owner 1 goes after the first. *)
Lemma add_appends_to_owner_witness :
  DefaultDict.lookup
    (_queue (snd (add clip_read clip_resample (clip 16000 [7%Z])
                      (Some (OwnerId 1)) two_quiet)))
    (OwnerId 1) =
  Some [Int16Array [1%Z]; Int16Array [7%Z]].
Proof.
  exact (proj1 (@add_appends_to_owner clip_read clip_resample
                  (clip 16000 [7%Z]) (Int16Array [7%Z]) (OwnerId 1) two_quiet
                  (@clip_decodes [7%Z] eq_refl))).
Defined.



(** One frame and then two, against three frames at once. *)
Lemma worker_calls_add_up_witness :
  let self := submit (OwnerId 1) 16000 [1000; 1000; 1000; 1000]%Z fresh in
  NoDup (DefaultDict.keys (_queue self)) /\
  _queue (snd (_worker clip_floor_divide 2
                 (snd (_worker clip_floor_divide 1 self)))) =
  _queue (snd (_worker clip_floor_divide 3 self)).
Proof.
  assert (H : NoDup (DefaultDict.keys
                       (_queue (submit (OwnerId 1) 16000
                                  [1000; 1000; 1000; 1000]%Z fresh)))).
  { vm_compute. constructor; [simpl; tauto|constructor]. }
  split; [exact H|].
  exact (@worker_calls_add_up clip_floor_divide 1 2 _ H).
Defined.

(** A clip of four samples is gone after some calls for two frames. *)
Lemma callback_drains_queue_witness :
  let self := submit (OwnerId 1) 16000 [1000; 1000; 1000; 1000]%Z fresh in
  exists n, _queue (pulls clip_floor_divide 2 (S n) self) = [].
Proof.
  assert (H : NoDup (DefaultDict.keys
                       (_queue (submit (OwnerId 1) 16000
                                  [1000; 1000; 1000; 1000]%Z fresh)))).
  { vm_compute. constructor; [simpl; tauto|constructor]. }
  apply (proj2 (proj2 (@callback_drains_queue clip_floor_divide 2 _ H))).
  lia.
Defined.

(** Two owners at volume 0. *)
Lemma zero_volume_plays_silence_witness :
  fst (_worker clip_floor_divide 3 (snd (volume_setter 0 two_quiet))) =
  Returned (tobytes [0; 0; 0]%Z, paContinue).
Proof.
  apply (@zero_volume_plays_silence clip_floor_divide 3
           (snd (volume_setter 0 two_quiet))).
  - vm_compute. discriminate.
  - apply nonempty_lists_check. vm_compute. reflexivity.
  - reflexivity.
Defined.

(** A clip of three samples played in frames of two. *)
Lemma single_clip_is_played_verbatim_witness :
  exists pad,
    (pad < 2)%nat /\
    concat (frames clip_floor_divide 2 2
              (submit (OwnerId 1) 16000 [5; -7; 9]%Z fresh)) =
    ([5; -7; 9] ++ repeat 0 pad)%Z.
Proof.
  apply (@single_clip_is_played_verbatim clip_floor_divide 2 2 (OwnerId 1)
           [5; -7; 9]%Z (submit (OwnerId 1) 16000 [5; -7; 9]%Z fresh)).
  - vm_compute. reflexivity.
  - discriminate.
  - repeat constructor; unfold Int16.min_signed, Int16.max_signed; lia.
  - vm_compute. reflexivity.
  - lia.
  - simpl. lia.
Defined.

(** The volume of an object with two clips. *)
Lemma volume_stays_a_fraction_witness :
  f64_leb (F64.of_Z 0) (_volume two_quiet) = true /\
  f64_leb (_volume two_quiet) (F64.of_Z 1) = true.
Proof.
  apply (@volume_stays_a_fraction clip_read clip_resample clip_floor_divide
           two_quiet).
  unfold two_quiet, submit.
  apply use_add, use_add. apply (use_init _ _ _ 100). reflexivity.
Defined.

(** Two owners with two samples each, at volume 100. *)
Lemma full_volume_mix_stays_in_range_witness :
  let self := submit (OwnerId 2) 16000 [3000; 4000]%Z
                (submit (OwnerId 1) 16000 [1000; -2001]%Z fresh) in
  exists data,
    fst (_worker clip_floor_divide 2 self) =
      Returned (tobytes data, paContinue) /\
    forall j, (j < 2)%nat ->
      nth j data 0%Z =
      Int16.wrap (Zsum (map (fun c => (sample_at j c / 2)%Z)
                            (all_chunks 2 (_queue self)))).
Proof.
  intros self.
  assert (H1 : _queue self <> []) by (vm_compute; discriminate).
  assert (H2 : nonempty_lists (_queue self))
    by (apply nonempty_lists_check; vm_compute; reflexivity).
  assert (H3 : int16_queue (_queue self))
    by (apply int16_queue_check; vm_compute; reflexivity).
  assert (H4 : int16_samples (_queue self))
    by (apply int16_samples_check; vm_compute; reflexivity).
  assert (H5 : _volume self = gain_of 100) by (vm_compute; reflexivity).
  destruct (@full_volume_mix_stays_in_range clip_floor_divide 2 self
              H1 H2 H3 H4 H5) as [data [Hd Hj]].
  exists data. split; [exact Hd|]. intros j Hlt.
  exact (proj1 (Hj j Hlt)).
Defined.

Module ChatRuns.
Import Ascii String Chat.
Local Open Scope string_scope.

(** An attack on Bob. *)
Lemma attack_target_is_the_letter_a_witness :
  request (fun name index => Returned (name, index))
          (fun _ => Raised ValueError) "/attack Bob 2" =
  Returned [("type", Str (string * Z) "attack");
            ("target", Str (string * Z) "a");
            ("order", Str (string * Z) "2")].
Proof.
  exact (@ChatFacts.attack_target_is_the_letter_a (string * Z)
           (fun name index => Returned (name, index))
           (fun _ => Raised ValueError) "/attack Bob 2" eq_refl).
Defined.

(** A ban of three words, with a message typed after it. *)
Lemma short_ban_ends_the_sender_witness :
  send_messages (fun name index => Returned (name, index))
                (fun _ => Raised ValueError)
                [Some "/ban apply Taupiqueur"; Some "hello"] =
  ([], Failed IndexError).
Proof.
  apply (@ChatFacts.short_ban_ends_the_sender (string * Z)
           (fun name index => Returned (name, index))
           (fun _ => Raised ValueError) "/ban apply Taupiqueur" [Some "hello"]).
  - left. reflexivity.
  - vm_compute. lia.
Defined.

(** Two messages, then the end. *)
Lemma plain_messages_are_sent_in_order_witness :
  send_messages (fun name index => Returned (name, index))
                (fun _ => Raised ValueError)
                [Some "hello"; Some "bye"; None; Some "late"] =
  ([plain "hello"; plain "bye"], Finished).
Proof.
  apply (@ChatFacts.plain_messages_are_sent_in_order (string * Z)
           (fun name index => Returned (name, index))
           (fun _ => Raised ValueError) ["hello"; "bye"] [Some "late"]).
  intros m [<-|[<-|[]]]; repeat split; reflexivity.
Defined.

(** Two days and thirty minutes. *)
Lemma timeout_parts_are_accepted_witness : is_timeout "2d30m" = true.
Proof.
  apply (@ChatFacts.timeout_parts_are_accepted (Some "2") None (Some "30") None);
    simpl; try tauto; split; (discriminate || reflexivity).
Defined.

(** The example of the source, with its timeout in days written [2j]. *)
Lemma ban_timeout_needs_a_unit_witness :
  In ("timeout", Str (string * Z) "0s")
     [("type", Str (string * Z) "slowban");
      ("state", Str (string * Z) "apply");
      ("userid", UserId ("Taupiqueur", 0%Z));
      ("timeout", Str (string * Z) "0s")].
Proof.
  apply (@ChatFacts.ban_timeout_needs_a_unit (string * Z)
           (fun name index => Returned (name, index))
           (fun _ => Returned 1%Z)
           "/slowban apply Taupiqueur 1 2j" _ "j"%char).
  - right. reflexivity.
  - reflexivity.
  - simpl. intros [H|[H|[H|[H|[]]]]]; discriminate.
  - reflexivity.
Defined.

End ChatRuns.
